(** * The Spanner change-stream watch of SpiceDB, in Rocq

    A shallow embedding of [internal/datastore/spanner/watch.go]: the
    database-name parser, the selection of the change stream, the decoder
    of the modifications of a data change record, the delivery loop of the
    read callback, and the life cycle of one watch session with its two
    channels.

    Go values that the change stream hands over as [any] are a tagged
    union; a Go [map[string]any] is a [gmap string any]; a computation that
    can return an [error] or panic is a [result]; the goroutine's effects
    on its channels are a trace of events. *)

From Stdlib Require Import ZArith Floats Ascii.
From stdpp Require Import base gmap strings list sorting.

#[local] Open Scope string_scope.
#[local] Open Scope list_scope.
#[local] Open Scope Z_scope.

(** ** Go values *)

(** What [encoding/json] puts in an [any]: [nil], [bool], [float64],
    [string], [[]any] and [map[string]any]. *)
#[warnings="-register-all"]
Inductive any : Type :=
| ANil
| ABool (b : bool)
| AFloat (f : float)
| AString (s : string)
| ASlice (l : list any)
| AMap (m : gmap string any).

(** Errors that travel through the session.  [ErrExternal] stands for an
    error value made by a collaborator (the reader, [encoding/json],
    [structpb]). *)
Inductive error : Type :=
| ErrParseDatabaseName (db : string)
| ErrExternal (msg : string)
| ErrBug (msg : string)
| ErrUnableToReadConfig (cause : string)
| ErrWatchCanceled
| ErrWatchDisconnected.

(** Run-time panics of the Go code. *)
Inductive panic : Type :=
| PanicInterfaceConversion (have want : string)
| PanicUncomparable (ty : string).

(** A Go call that returns a value, returns an error, or panics. *)
Inductive result (A : Type) : Type :=
| Ok (a : A)
| Err (e : error)
| Panic (p : panic).
Arguments Ok {A} a.
Arguments Err {A} e.
Arguments Panic {A} p.

#[global] Instance result_ret : MRet result := fun _ a => Ok a.
#[global] Instance result_bind : MBind result := fun _ _ f r =>
  match r with
  | Ok a => f a
  | Err e => Err e
  | Panic p => Panic p
  end.

Definition of_sum {A : Type} (r : error + A) : result A :=
  match r with
  | inl e => Err e
  | inr a => Ok a
  end.

(** The dynamic type of a value, as a panic message names it. *)
Definition typeName (v : any) : string :=
  match v with
  | ANil => "nil"
  | ABool _ => "bool"
  | AFloat _ => "float64"
  | AString _ => "string"
  | ASlice _ => "[]interface {}"
  | AMap _ => "map[string]interface {}"
  end.

(** [v.(string)], the unchecked assertion. *)
Definition assertString (v : any) : result string :=
  match v with
  | AString s => Ok s
  | _ => Panic (PanicInterfaceConversion (typeName v) "string")
  end.

(** [s, ok := v.(string)]. *)
Definition asString (v : any) : option string :=
  match v with
  | AString s => Some s
  | _ => None
  end.

(** [m, ok := v.(map[string]any)]. *)
Definition asMap (v : any) : option (gmap string any) :=
  match v with
  | AMap m => Some m
  | _ => None
  end.

(** [m[k]]: the zero value [nil] for an absent key. *)
Definition index (m : gmap string any) (k : string) : any :=
  default ANil (m !! k).

(** [a == b] on two interface values: equal dynamic types and equal
    values; a panic when both hold the same uncomparable type. *)
Definition ifaceEq (a b : any) : result bool :=
  match a, b with
  | ANil, ANil => Ok true
  | ABool x, ABool y => Ok (Bool.eqb x y)
  | AFloat x, AFloat y => Ok (PrimFloat.eqb x y)
  | AString x, AString y => Ok (String.eqb x y)
  | ASlice _, ASlice _ => Panic (PanicUncomparable (typeName a))
  | AMap _, AMap _ => Panic (PanicUncomparable (typeName a))
  | _, _ => Ok false
  end.

(** ** Records of the change stream *)

Record NullJSON : Type := { Value : any; Valid : bool }.

Record Mod : Type := { Keys : NullJSON; NewValues : NullJSON; OldValues : NullJSON }.

(** Times are counted in nanoseconds since the epoch. *)
Record DataChangeRecord : Type := {
  CommitTimestamp : Z;
  TableName : string;
  ModType : string;
  Mods : list Mod
}.

Record HeartbeatRecord : Type := { Timestamp : Z }.

Record ChangeRecord : Type := {
  DataChangeRecords : list DataChangeRecord;
  HeartbeatRecords : list HeartbeatRecord
}.

Record ReadResult : Type := { ChangeRecords : list ChangeRecord }.

(** ** What the file takes from the rest of the repository *)

(** The bits of [datastore.WatchContent]; [pkg/datastore] declares them. *)
Class WatchContent : Type := {
  WatchRelationships : Z;
  WatchSchema : Z;
  WatchCheckpoints : Z
}.

(** The three flags are three different bits. *)
Definition IndependentBits `{WatchContent} : Prop :=
  ∃ r s c : nat,
    WatchRelationships = 2 ^ Z.of_nat r ∧
    WatchSchema = 2 ^ Z.of_nat s ∧
    WatchCheckpoints = 2 ^ Z.of_nat c ∧
    r ≠ s ∧ r ≠ c ∧ s ≠ c.

(** Table and column names; [schema.go] declares them. *)
Class Schema : Type := {
  tableRelationship : string;
  tableNamespace : string;
  tableCaveat : string;
  colNamespace : string;
  colObjectID : string;
  colRelation : string;
  colUsersetNamespace : string;
  colUsersetObjectID : string;
  colUsersetRelation : string;
  colCaveatName : string;
  colCaveatContext : string;
  colNamespaceName : string;
  colNamespaceConfig : string;
  colName : string;
  colCaveatDefinition : string
}.

(** Decoders and message types of other packages. *)
Class Collaborators : Type := {
  Struct : Type;
  NamespaceDefinition : Type;
  CaveatDefinition : Type;
  (** [json.Unmarshal([]byte(s), &context)] with [context] a nil
      [map[string]any]: an error, or the map ([None] when it stays nil). *)
  json_Unmarshal : string → error + option (gmap string any);
  (** [structpb.NewStruct]. *)
  structpb_NewStruct : option (gmap string any) → error + Struct;
  (** [base64.StdEncoding.DecodeString]; the error is kept as its text. *)
  base64_DecodeString : string → string + string;
  NamespaceDefinition_UnmarshalVT : string → string + NamespaceDefinition;
  CaveatDefinition_UnmarshalVT : string → string + CaveatDefinition
}.

(** ** The database name *)

(** The pieces of a string between its slashes. *)
Fixpoint splitSlash (s : string) : list string :=
  match s with
  | EmptyString => [EmptyString]
  | String c rest =>
      if Ascii.eqb c "/"%char then EmptyString :: splitSlash rest
      else match splitSlash rest with
           | seg :: more => String c seg :: more
           | [] => [String c EmptyString]
           end
  end.

Definition nonEmpty (s : string) : bool := negb (String.eqb s "").

(** [validDBPattern.FindStringSubmatch]: the three groups of
    [^projects/([^/]+)/instances/([^/]+)/databases/([^/]+)$]. *)
Definition validDBPattern (db : string) : option (string * string * string) :=
  match splitSlash db with
  | [p0; project; p2; instance; p4; database] =>
      if String.eqb p0 "projects" && String.eqb p2 "instances"
         && String.eqb p4 "databases"
         && nonEmpty project && nonEmpty instance && nonEmpty database
      then Some (project, instance, database)
      else None
  | _ => None
  end.

Definition parseDatabaseName (db : string) : error + (string * string * string) :=
  match validDBPattern db with
  | None => inl (ErrParseDatabaseName db)
  | Some m => inr m
  end.

(** ** The change stream to tail *)

Inductive StreamName : Type :=
| RelationTupleChangeStreamName
| SchemaChangeStreamName
| CombinedChangeStreamName.

Section Watch.
Context `{WatchContent} `{Schema} `{Collaborators}.

(** Lines 108-114 of [watch]: two tests in a row, the second overriding
    the first. *)
Definition changeStreamName (Content : Z) : StreamName :=
  let name := CombinedChangeStreamName in
  let name :=
    if (Z.land Content WatchRelationships =? Content)%Z
    then RelationTupleChangeStreamName else name in
  let name :=
    if (Z.land Content (Z.lor WatchSchema WatchCheckpoints) =? Content)%Z
    then SchemaChangeStreamName else name in
  name.

(** ** Messages of [core] and [datastore] *)

Record ObjectAndRelation : Type := {
  Namespace : string;
  ObjectId : string;
  Relation : string
}.

Record ContextualizedCaveat : Type := {
  CaveatName : string;
  Context : Struct
}.

Record RelationTuple : Type := {
  ResourceAndRelation : ObjectAndRelation;
  Subject : ObjectAndRelation;
  Caveat : option ContextualizedCaveat
}.

Inductive Operation : Type :=
| RelationTupleUpdate_CREATE
| RelationTupleUpdate_TOUCH
| RelationTupleUpdate_DELETE.

Record RelationTupleUpdate : Type := {
  UpdateOperation : Operation;
  Tuple : RelationTuple
}.

Inductive SchemaDefinition : Type :=
| OfNamespace (ns : NamespaceDefinition)
| OfCaveat (c : CaveatDefinition).

(** A [datastore.Revision]: the nil interface, a [revision.Decimal] (here
    the nanoseconds it counts), or a value of another type. *)
Inductive Revision : Type :=
| NilRevision
| Decimal (nanos : Z)
| ForeignRevision (ty : string).

Record RevisionChanges : Type := {
  ChangesRevision : Revision;
  RelationshipChanges : list RelationTupleUpdate;
  ChangedDefinitions : list SchemaDefinition;
  DeletedNamespaces : list string;
  DeletedCaveats : list string;
  IsCheckpoint : bool
}.

(** Modelled from the spec: [revisionFromTimestamp] and
    [timestampFromRevision] of [revisions.go] are not in this file; section
    4.1 makes them inverse, total and lossless, so a Decimal revision is
    the nanosecond count of its commit timestamp. *)
Definition revisionFromTimestamp (t : Z) : Z := t.
Definition timestampFromRevision (r : Z) : Z := r.

(** Modelled from the spec: [common.ContextualizedCaveatFrom] is not in
    this file; section 3 makes a caveat a name with a structured context
    map, and the absence of a name "no caveat". *)
Definition ContextualizedCaveatFrom (name : string) (context : option (gmap string any))
    : result (option ContextualizedCaveat) :=
  if nonEmpty name then
    strct ← of_sum (structpb_NewStruct context);
    Ok (Some {| CaveatName := name; Context := strct |})
  else Ok None.

(** Modelled from the spec: [spiceerrors.MustBugf] is not in this file;
    section 4.3 calls what it returns a fatal internal-invariant error. *)
Definition MustBugf {A : Type} (msg : string) : result A := Err (ErrBug msg).

(** ** The accumulator of one change record *)

(** Modelled from the spec: [common.Changes] ([NewChanges], the [Add...]
    methods, [IsEmpty], [AsRevisionChanges]) and the key functions of
    [pkg/datastore/revision] are not in this file.  Section 4.4: an
    accumulator built from a key function and the content mask; every
    addition is filtered against the mask; the rendering is ordered by
    the caller's less-than on the keys, one change set per revision. *)
Record changeRecord : Type := {
  recRevision : Z;
  recRelationshipChanges : list RelationTupleUpdate;
  recChangedDefinitions : list SchemaDefinition;
  recDeletedNamespaces : list string;
  recDeletedCaveats : list string
}.

Record Changes : Type := {
  keyFunc : Z → Z;
  content : Z;
  records : gmap Z changeRecord
}.

Definition DecimalKeyFunc (r : Z) : Z := r.
Definition DecimalKeyLessThanFunc (lhs rhs : Z) : bool := (lhs <? rhs)%Z.

Definition NewChanges (keyFunc : Z → Z) (content : Z) : Changes :=
  {| keyFunc := keyFunc; content := content; records := ∅ |}.

Definition recordForRevision (ch : Changes) (rev : Z) : changeRecord :=
  default {| recRevision := rev; recRelationshipChanges := [];
             recChangedDefinitions := []; recDeletedNamespaces := [];
             recDeletedCaveats := [] |}
          (records ch !! keyFunc ch rev).

Definition setRecord (ch : Changes) (rev : Z) (r : changeRecord) : Changes :=
  {| keyFunc := keyFunc ch; content := content ch;
     records := <[keyFunc ch rev := r]> (records ch) |}.

Definition requested (ch : Changes) (bit : Z) : bool :=
  (Z.land (content ch) bit =? bit)%Z.

Definition AddRelationshipChange (ch : Changes) (rev : Z) (tpl : RelationTuple)
    (op : Operation) : result Changes :=
  if requested ch WatchRelationships then
    let r := recordForRevision ch rev in
    Ok (setRecord ch rev
          {| recRevision := recRevision r;
             recRelationshipChanges :=
               recRelationshipChanges r ++ [{| UpdateOperation := op; Tuple := tpl |}];
             recChangedDefinitions := recChangedDefinitions r;
             recDeletedNamespaces := recDeletedNamespaces r;
             recDeletedCaveats := recDeletedCaveats r |})
  else Ok ch.

Definition AddChangedDefinition (ch : Changes) (rev : Z) (def : SchemaDefinition) : Changes :=
  if requested ch WatchSchema then
    let r := recordForRevision ch rev in
    setRecord ch rev
      {| recRevision := recRevision r;
         recRelationshipChanges := recRelationshipChanges r;
         recChangedDefinitions := recChangedDefinitions r ++ [def];
         recDeletedNamespaces := recDeletedNamespaces r;
         recDeletedCaveats := recDeletedCaveats r |}
  else ch.

Definition AddDeletedNamespace (ch : Changes) (rev : Z) (name : string) : Changes :=
  if requested ch WatchSchema then
    let r := recordForRevision ch rev in
    setRecord ch rev
      {| recRevision := recRevision r;
         recRelationshipChanges := recRelationshipChanges r;
         recChangedDefinitions := recChangedDefinitions r;
         recDeletedNamespaces := recDeletedNamespaces r ++ [name];
         recDeletedCaveats := recDeletedCaveats r |}
  else ch.

Definition AddDeletedCaveat (ch : Changes) (rev : Z) (name : string) : Changes :=
  if requested ch WatchSchema then
    let r := recordForRevision ch rev in
    setRecord ch rev
      {| recRevision := recRevision r;
         recRelationshipChanges := recRelationshipChanges r;
         recChangedDefinitions := recChangedDefinitions r;
         recDeletedNamespaces := recDeletedNamespaces r;
         recDeletedCaveats := recDeletedCaveats r ++ [name] |}
  else ch.

Definition IsEmpty (ch : Changes) : bool := Nat.eqb (size (records ch)) 0.

Fixpoint insertByKey {A : Type} (lessThan : Z → Z → bool) (x : Z * A)
    (l : list (Z * A)) : list (Z * A) :=
  match l with
  | [] => [x]
  | y :: l' =>
      if lessThan x.1 y.1 then x :: y :: l'
      else y :: insertByKey lessThan x l'
  end.

Definition sortByKey {A : Type} (lessThan : Z → Z → bool) (l : list (Z * A))
    : list (Z * A) :=
  foldr (insertByKey lessThan) [] l.

Definition renderRecord (r : changeRecord) : RevisionChanges :=
  {| ChangesRevision := Decimal (recRevision r);
     RelationshipChanges := recRelationshipChanges r;
     ChangedDefinitions := recChangedDefinitions r;
     DeletedNamespaces := recDeletedNamespaces r;
     DeletedCaveats := recDeletedCaveats r;
     IsCheckpoint := false |}.

Definition AsRevisionChanges (ch : Changes) (lessThan : Z → Z → bool)
    : list RevisionChanges :=
  (renderRecord ∘ snd) <$> sortByKey lessThan (map_to_list (records ch)).

(** ** The decoder of one modification *)

(** The call that a branch of the decoder makes on the accumulator. *)
Inductive ChangeEvent : Type :=
| RelationshipChange (rev : Z) (tpl : RelationTuple) (op : Operation)
| DeletedNamespace (rev : Z) (name : string)
| DeletedCaveat (rev : Z) (name : string)
| ChangedDefinition (rev : Z) (def : SchemaDefinition).

Definition track (tracked : Changes) (ev : ChangeEvent) : result Changes :=
  match ev with
  | RelationshipChange rev tpl op => AddRelationshipChange tracked rev tpl op
  | DeletedNamespace rev name => Ok (AddDeletedNamespace tracked rev name)
  | DeletedCaveat rev name => Ok (AddDeletedCaveat tracked rev name)
  | ChangedDefinition rev def => Ok (AddChangedDefinition tracked rev def)
  end.

(** Lines 358-374. *)
Definition contextualizedCaveatFromValues (values : gmap string any)
    : result (option ContextualizedCaveat) :=
  name ← assertString (index values colCaveatName);
  if nonEmpty name then
    let contextString := index values colCaveatContext in
    context ← match contextString with
              | ANil => Ok None
              | _ => s ← assertString contextString; of_sum (json_Unmarshal s)
              end;
    ContextualizedCaveatFrom name context
  else Ok None.

(** The struct literal of lines 163-174 and 232-243: six unchecked
    assertions, in the order of the fields. *)
Definition relationTupleFromKeys (primaryKeyColumnValues : gmap string any)
    : result RelationTuple :=
  ns ← assertString (index primaryKeyColumnValues colNamespace);
  oid ← assertString (index primaryKeyColumnValues colObjectID);
  rel ← assertString (index primaryKeyColumnValues colRelation);
  sns ← assertString (index primaryKeyColumnValues colUsersetNamespace);
  soid ← assertString (index primaryKeyColumnValues colUsersetObjectID);
  srel ← assertString (index primaryKeyColumnValues colUsersetRelation);
  Ok {| ResourceAndRelation := {| Namespace := ns; ObjectId := oid; Relation := rel |};
        Subject := {| Namespace := sns; ObjectId := soid; Relation := srel |};
        Caveat := None |}.

Definition withCaveat (tpl : RelationTuple) (c : option ContextualizedCaveat)
    : RelationTuple :=
  {| ResourceAndRelation := ResourceAndRelation tpl;
     Subject := Subject tpl;
     Caveat := c |}.

(** [oldValues[colCaveatName] == newValues[colCaveatName] &&
     oldValues[colCaveatContext] == newValues[colCaveatContext]]. *)
Definition caveatUnchanged (oldValues newValues : gmap string any) : result bool :=
  sameName ← ifaceEq (index oldValues colCaveatName) (index newValues colCaveatName);
  if sameName : bool
  then ifaceEq (index oldValues colCaveatContext) (index newValues colCaveatContext)
  else Ok false.

(** The schema payload of lines 279-292 and 302-315. *)
Definition decodeDefinition {D : Type} (unmarshalVT : string → string + D)
    (base64SerializedConfig : string) : result D :=
  match base64_DecodeString base64SerializedConfig with
  | inl e => Err (ErrUnableToReadConfig e)
  | inr serializedConfig =>
      match unmarshalVT serializedConfig with
      | inl e => Err (ErrUnableToReadConfig e)
      | inr d => Ok d
      end
  end.

(** The body of the loop over [dcr.Mods], lines 154-325.  [Ok None] is the
    [continue] of line 260; [Ok (Some ev)] is the call on [tracked] that
    ends the branch. *)
Definition decodeMod (changeRevision : Z) (tableName modType : string) (mod_ : Mod)
    : result (option ChangeEvent) :=
  match asMap (Value (Keys mod_)) with
  | None => MustBugf "error converting keys map"
  | Some primaryKeyColumnValues =>
    if String.eqb modType "DELETE" then
      if String.eqb tableName tableRelationship then
        relationTuple ← relationTupleFromKeys primaryKeyColumnValues;
        match asMap (Value (OldValues mod_)) with
        | None => MustBugf "error converting old values map"
        | Some oldValues =>
            caveat ← contextualizedCaveatFromValues oldValues;
            Ok (Some (RelationshipChange changeRevision
                        (withCaveat relationTuple caveat)
                        RelationTupleUpdate_DELETE))
        end
      else if String.eqb tableName tableNamespace then
        match primaryKeyColumnValues !! colNamespaceName with
        | None => MustBugf "missing namespace name value"
        | Some namespaceNameValue =>
            match asString namespaceNameValue with
            | None => MustBugf "error converting namespace name"
            | Some namespaceName =>
                Ok (Some (DeletedNamespace changeRevision namespaceName))
            end
        end
      else if String.eqb tableName tableCaveat then
        match primaryKeyColumnValues !! colNamespaceName with
        | None => MustBugf "missing caveat name"
        | Some caveatNameValue =>
            match asString caveatNameValue with
            | None => MustBugf "error converting caveat name"
            | Some caveatName =>
                Ok (Some (DeletedCaveat changeRevision caveatName))
            end
        end
      else MustBugf "unknown table name in delete of change stream"
    else if String.eqb modType "INSERT" || String.eqb modType "UPDATE" then
      match asMap (Value (NewValues mod_)) with
      | None => MustBugf "error new values keys map"
      | Some newValues =>
        if String.eqb tableName tableRelationship then
          relationTuple ← relationTupleFromKeys primaryKeyColumnValues;
          match asMap (Value (OldValues mod_)) with
          | None => MustBugf "error converting old values map"
          | Some oldValues =>
            match asMap (Value (NewValues mod_)) with
            | None => MustBugf "error converting new values map"
            | Some newValues =>
                unchanged ← caveatUnchanged oldValues newValues;
                if unchanged : bool then Ok None
                else
                  caveat ← contextualizedCaveatFromValues newValues;
                  Ok (Some (RelationshipChange changeRevision
                              (withCaveat relationTuple caveat)
                              RelationTupleUpdate_TOUCH))
            end
          end
        else if String.eqb tableName tableNamespace then
          match newValues !! colNamespaceConfig with
          | None => MustBugf "missing namespace config value"
          | Some namespaceConfigValue =>
              match asString namespaceConfigValue with
              | None => MustBugf "error converting namespace config value"
              | Some base64SerializedConfig =>
                  ns ← decodeDefinition NamespaceDefinition_UnmarshalVT
                         base64SerializedConfig;
                  Ok (Some (ChangedDefinition changeRevision (OfNamespace ns)))
              end
          end
        else if String.eqb tableName tableCaveat then
          match newValues !! colCaveatDefinition with
          | None => MustBugf "missing caveat definition value"
          | Some caveatDefValue =>
              match asString caveatDefValue with
              | None => MustBugf "error converting caveat definition value"
              | Some base64SerializedConfig =>
                  caveat ← decodeDefinition CaveatDefinition_UnmarshalVT
                             base64SerializedConfig;
                  Ok (Some (ChangedDefinition changeRevision (OfCaveat caveat)))
              end
          end
        else MustBugf "unknown table name in delete of change stream"
      end
    else MustBugf "unknown modtype in spanner change stream record"
  end.

(** The loops over [dcr.Mods] and [record.DataChangeRecords]. *)
Fixpoint foldM {A B : Type} (f : B → A → result B) (b : B) (l : list A) : result B :=
  match l with
  | [] => Ok b
  | a :: l' => b' ← f b a; foldM f b' l'
  end.

Definition trackMod (changeRevision : Z) (tableName modType : string)
    (tracked : Changes) (mod_ : Mod) : result Changes :=
  ev ← decodeMod changeRevision tableName modType mod_;
  match ev with
  | None => Ok tracked
  | Some ev => track tracked ev
  end.

Definition trackDataChangeRecord (tracked : Changes) (dcr : DataChangeRecord)
    : result Changes :=
  let changeRevision := revisionFromTimestamp (CommitTimestamp dcr) in
  let modType := ModType dcr in
  foldM (trackMod changeRevision (TableName dcr) modType) tracked (Mods dcr).

(** Lines 147-327 for one [record]. *)
Definition trackRecord (Content : Z) (record : ChangeRecord) : result Changes :=
  let tracked := NewChanges DecimalKeyFunc Content in
  foldM trackDataChangeRecord tracked (DataChangeRecords record).

(** ** The session *)

Inductive ctxError : Type := Canceled | DeadlineExceeded.

Record WatchOptions : Type := { Content : Z; CheckpointInterval : Z }.

Record spannerDatastore : Type := { database : string; credentialsFilePath : string }.

Record Config : Type := {
  StartTimestamp : Z;
  HeartbeatInterval : Z;
  CredentialsFile : string
}.

(** What a reader does during one session: the batches it hands to the
    callback, then the value its [Read] returns by itself. *)
Record Reader : Type := { readBatches : list ReadResult; readReturn : option error }.

(** What the goroutine does to the outside, in order. *)
Inductive event : Type :=
| Open (stream : StreamName) (cfg : Config)
| Update (change : RevisionChanges)
| Refused (change : RevisionChanges)
| Error (e : error)
| ReaderClosed
| ErrsClosed
| UpdatesClosed.

(** The surroundings of one session: the stream library, the value of
    [ctx.Err()] when [sendError] runs, and the consumer, as the number of
    change sets it takes off the [updates] channel right before the
    producer's [n]-th attempt to send. *)
Record World : Type := {
  NewReaderWithConfig : string → string → string → StreamName → Config → error + Reader;
  ctxErr : option ctxError;
  received : nat → nat
}.

Record state : Type := {
  buffered : list RevisionChanges;
  attempts : nat;
  trace : list event
}.

(** [make(chan *datastore.RevisionChanges, 10)] in [Watch]. *)
Definition updatesCap : nat := 10.

Definition emit (e : event) (s : state) : state :=
  {| buffered := buffered s; attempts := attempts s; trace := trace s ++ [e] |}.

(** Lines 81-88.  [errs] has room for one error and this is the only send
    on it. *)
Definition sendError (w : World) (err : error) (s : state) : state :=
  match ctxErr w with
  | Some Canceled => emit (Error ErrWatchCanceled) s
  | _ => emit (Error err) s
  end.

(** Lines 90-98: the [select] with a [default].  [Refused] records that
    the default branch was taken. *)
Definition sendChange (w : World) (change : RevisionChanges) (s : state) : bool * state :=
  let waiting := drop (received w (attempts s)) (buffered s) in
  if (length waiting <? updatesCap)%nat
  then (true, {| buffered := waiting ++ [change]; attempts := S (attempts s);
                 trace := trace s ++ [Update change] |})
  else (false, {| buffered := waiting; attempts := S (attempts s);
                  trace := trace s ++ [Refused change] |}).

(** A loop of sends that leaves at the first one that fails. *)
Fixpoint sendChanges (w : World) (changes : list RevisionChanges) (s : state)
    : bool * state :=
  match changes with
  | [] => (true, s)
  | change :: rest =>
      let '(ok, s') := sendChange w change s in
      if ok then sendChanges w rest s' else (false, s')
  end.

Definition checkpoint (hbr : HeartbeatRecord) : RevisionChanges :=
  {| ChangesRevision := Decimal (revisionFromTimestamp (Timestamp hbr));
     RelationshipChanges := []; ChangedDefinitions := [];
     DeletedNamespaces := []; DeletedCaveats := [];
     IsCheckpoint := true |}.

Definition checkpointsRequested (opts : WatchOptions) : bool :=
  (Z.land (Content opts) WatchCheckpoints =? WatchCheckpoints)%Z.

(** The body of the loop over [result.ChangeRecords], lines 147-347. *)
Definition handleRecord (w : World) (opts : WatchOptions) (record : ChangeRecord)
    (s : state) : result unit * state :=
  match trackRecord (Content opts) record with
  | Ok tracked =>
      let '(ok, s1) :=
        if negb (IsEmpty tracked)
        then sendChanges w (AsRevisionChanges tracked DecimalKeyLessThanFunc) s
        else (true, s) in
      if ok then
        if checkpointsRequested opts then
          let '(ok', s2) := sendChanges w (checkpoint <$> HeartbeatRecords record) s1 in
          if ok' then (Ok (), s2) else (Err ErrWatchDisconnected, s2)
        else (Ok (), s1)
      else (Err ErrWatchDisconnected, s1)
  | Err e => (Err e, s)
  | Panic p => (Panic p, s)
  end.

Fixpoint handleRecords (w : World) (opts : WatchOptions) (records : list ChangeRecord)
    (s : state) : result unit * state :=
  match records with
  | [] => (Ok (), s)
  | record :: rest =>
      match handleRecord w opts record s with
      | (Ok _, s') => handleRecords w opts rest s'
      | stop => stop
      end
  end.

(** The function handed to [reader.Read], lines 144-350. *)
Definition callback (w : World) (opts : WatchOptions) (result_ : ReadResult)
    (s : state) : result unit * state :=
  handleRecords w opts (ChangeRecords result_) s.

(** Modelled from the spec: [changestreams.Reader.Read] belongs to an
    outside library.  Section 6: the handler is called once per batch of
    change records and may return an error to abort reading; [Read] then
    returns that error, and otherwise what the reader ends with. *)
Fixpoint Read (f : ReadResult → state → result unit * state)
    (batches : list ReadResult) (final : option error) (s : state)
    : result unit * state :=
  match batches with
  | [] => (match final with Some e => Err e | None => Ok () end, s)
  | batch :: rest =>
      match f batch s with
      | (Ok _, s') => Read f rest final s'
      | stop => stop
      end
  end.

(** How the goroutine ends. *)
Inductive outcome : Type :=
| Returned
| Panicked (p : panic).

Definition Millisecond : Z := 1000000.

Definition revisionTypeName (r : Revision) : string :=
  match r with
  | NilRevision => "nil"
  | Decimal _ => "revision.Decimal"
  | ForeignRevision ty => ty
  end.

(** Lines 76-355: [watch] up to its deferred calls. *)
Definition watchBody (w : World) (sd : spannerDatastore) (afterRevisionRaw : Revision)
    (opts : WatchOptions) (s : state) : outcome * state :=
  let heartbeatInterval :=
    if (CheckpointInterval opts <? 100 * Millisecond)%Z
    then 100 * Millisecond else CheckpointInterval opts in
  match parseDatabaseName (database sd) with
  | inl err => (Returned, sendError w err s)
  | inr (project, instance, database) =>
      let changeStreamName := changeStreamName (Content opts) in
      match afterRevisionRaw with
      | Decimal afterRevision =>
          let cfg := {| StartTimestamp := timestampFromRevision afterRevision;
                        HeartbeatInterval := heartbeatInterval;
                        CredentialsFile := credentialsFilePath sd |} in
          let s := emit (Open changeStreamName cfg) s in
          match NewReaderWithConfig w project instance database changeStreamName cfg with
          | inl err => (Returned, sendError w err s)
          | inr reader =>
              let '(r, s) := Read (callback w opts) (readBatches reader)
                               (readReturn reader) s in
              let '(o, s) :=
                match r with
                | Ok _ => (Returned, s)
                | Err err => (Returned, sendError w err s)
                | Panic p => (Panicked p, s)
                end in
              (o, emit ReaderClosed s)
          end
      | _ =>
          (Panicked (PanicInterfaceConversion (revisionTypeName afterRevisionRaw)
                       "revision.Decimal"), s)
      end
  end.

(** [watch]: the body, then [close(errs)] and [close(updates)], which run
    on a return and on a panic alike. *)
Definition watch (w : World) (sd : spannerDatastore) (afterRevisionRaw : Revision)
    (opts : WatchOptions) : outcome * list event :=
  let '(o, s) := watchBody w sd afterRevisionRaw opts
                   {| buffered := []; attempts := 0; trace := [] |} in
  (o, (trace s ++ [ErrsClosed; UpdatesClosed])%list).

(** ** Reading a trace *)

Definition updatesOf (t : list event) : list RevisionChanges :=
  omap (λ e, match e with Update c => Some c | _ => None end) t.

Definition errorsOf (t : list event) : list error :=
  omap (λ e, match e with Error err => Some err | _ => None end) t.

Definition isErrsClosed (e : event) : bool :=
  match e with ErrsClosed => true | _ => false end.

Definition isUpdatesClosed (e : event) : bool :=
  match e with UpdatesClosed => true | _ => false end.

Definition isOpen (e : event) : bool :=
  match e with Open _ _ => true | _ => false end.

Definition count (p : event → bool) (t : list event) : nat :=
  length (List.filter p t).

(** The revision of a change set, when it is a Decimal. *)
Definition nanosOf (c : RevisionChanges) : option Z :=
  match ChangesRevision c with
  | Decimal n => Some n
  | _ => None
  end.

Definition hasNoData (c : RevisionChanges) : Prop :=
  RelationshipChanges c = [] ∧ ChangedDefinitions c = [] ∧
  DeletedNamespaces c = [] ∧ DeletedCaveats c = [].

(** The change sets that one change record asks to send, in order: its
    rendered revisions, then its checkpoints when they are requested. *)
Definition planned (opts : WatchOptions) (record : ChangeRecord) (tracked : Changes)
    : list RevisionChanges :=
  AsRevisionChanges tracked DecimalKeyLessThanFunc ++
  (if checkpointsRequested opts then checkpoint <$> HeartbeatRecords record else []).

(** The error that [sendError] puts on the channel. *)
Definition reported (w : World) (err : error) : error :=
  match ctxErr w with
  | Some Canceled => ErrWatchCanceled
  | _ => err
  end.


(** The calls that one change record makes on its accumulator, in order. *)
Fixpoint decodeMods (changeRevision : Z) (tableName modType : string) (mods : list Mod)
    : result (list ChangeEvent) :=
  match mods with
  | [] => Ok []
  | mod_ :: rest =>
      ev ← decodeMod changeRevision tableName modType mod_;
      evs ← decodeMods changeRevision tableName modType rest;
      Ok (option_list ev ++ evs)
  end.

Fixpoint decodeDataChangeRecords (dcrs : list DataChangeRecord) : result (list ChangeEvent) :=
  match dcrs with
  | [] => Ok []
  | dcr :: rest =>
      evs ← decodeMods (revisionFromTimestamp (CommitTimestamp dcr)) (TableName dcr)
              (ModType dcr) (Mods dcr);
      evs' ← decodeDataChangeRecords rest;
      Ok (evs ++ evs')
  end.

Definition decodeRecord (record : ChangeRecord) : result (list ChangeEvent) :=
  decodeDataChangeRecords (DataChangeRecords record).

Definition revisionOf (ev : ChangeEvent) : Z :=
  match ev with
  | RelationshipChange rev _ _ | DeletedNamespace rev _
  | DeletedCaveat rev _ | ChangedDefinition rev _ => rev
  end.

(** The content mask asks for the event. *)
Definition wanted (Content : Z) (ev : ChangeEvent) : Prop :=
  match ev with
  | RelationshipChange _ _ _ => Z.land Content WatchRelationships = WatchRelationships
  | _ => Z.land Content WatchSchema = WatchSchema
  end.

(** The change set holds the payload of the event. *)
Definition carries (c : RevisionChanges) (ev : ChangeEvent) : Prop :=
  match ev with
  | RelationshipChange _ tpl op =>
      {| UpdateOperation := op; Tuple := tpl |} ∈ RelationshipChanges c
  | DeletedNamespace _ name => name ∈ DeletedNamespaces c
  | DeletedCaveat _ name => name ∈ DeletedCaveats c
  | ChangedDefinition _ def => def ∈ ChangedDefinitions c
  end.

(** Every record sits under the key of its own revision. *)
Definition keyed (ch : Changes) : Prop :=
  keyFunc ch = DecimalKeyFunc ∧
  ∀ k r, records ch !! k = Some r → recRevision r = k.

Definition carriesRecord (r : changeRecord) (ev : ChangeEvent) : Prop :=
  carries (renderRecord r) ev.

(** The accumulator holds the event under its revision. *)
Definition holds (ch : Changes) (ev : ChangeEvent) : Prop :=
  ∃ r, records ch !! revisionOf ev = Some r ∧ carriesRecord r ev.

(** A record only grows. *)
Definition grows (r r' : changeRecord) : Prop :=
  ∀ ev, carriesRecord r ev → carriesRecord r' ev.

(** What may follow the change sets sent while [Read] runs: nothing, or
    the refusal that made the callback return the disconnect error. *)
Definition trail (r : result unit) (tail : list event) : Prop :=
  tail = [] ∨ ∃ change, r = Err ErrWatchDisconnected ∧ tail = [Refused change].

Definition isRefused (e : event) : bool :=
  match e with Refused _ => true | _ => false end.

(** The state in which [watch] starts. *)
Definition initial : state := {| buffered := []; attempts := 0; trace := [] |}.

(** The configuration that [watch] hands to the stream library. *)
Definition configOf (sd : spannerDatastore) (afterRevision : Z) (opts : WatchOptions)
    : Config :=
  {| StartTimestamp := timestampFromRevision afterRevision;
     HeartbeatInterval :=
       if (CheckpointInterval opts <? 100 * Millisecond)%Z
       then 100 * Millisecond else CheckpointInterval opts;
     CredentialsFile := credentialsFilePath sd |}.

End Watch.

(** A column that holds a string or is null or absent. *)
Definition stringOrNil (v : any) : Prop := v = ANil ∨ ∃ s, v = AString s.

(** The panics of a failed [.(string)] and of [==] on two maps or slices. *)
Definition columnPanic (p : panic) : Prop :=
  (∃ have, p = PanicInterfaceConversion have "string") ∨ ∃ ty, p = PanicUncomparable ty.

(** [c] has no bit outside [m]. *)
Definition subsetOf (c m : Z) : Prop :=
  ∀ i, 0 ≤ i → Z.testbit c i = true → Z.testbit m i = true.


(** ** More readings of the code *)

(** The name that [validDBPattern] is written for. *)
Definition databaseName (project instance database : string) : string :=
  "projects/" +:+ project +:+ "/instances/" +:+ instance +:+ "/databases/" +:+ database.

Fixpoint noSlash (s : string) : bool :=
  match s with
  | EmptyString => true
  | String c rest => negb (Ascii.eqb c "/"%char) && noSlash rest
  end.

(** The inverse of [splitSlash]. *)
Fixpoint joinSlash (segs : list string) : string :=
  match segs with
  | [] => ""
  | [seg] => seg
  | seg :: rest => seg +:+ "/" +:+ joinSlash rest
  end.

Section WatchReadings.
Context `{WatchContent} `{Schema} `{Collaborators}.

(** The change records of the batches of a reader, in order. *)
Definition recordsOf (batches : list ReadResult) : list ChangeRecord :=
  batches ≫= ChangeRecords.

(** What a run of change records asks to send, up to the first record
    that does not decode, and how the decoding ends. *)
Fixpoint planRecords (opts : WatchOptions) (records : list ChangeRecord)
    : list RevisionChanges * result () :=
  match records with
  | [] => ([], Ok ())
  | record :: rest =>
      match trackRecord (Content opts) record with
      | Ok tracked =>
          let '(sets, r) := planRecords opts rest in
          (planned opts record tracked ++ sets, r)
      | Err e => ([], Err e)
      | Panic p => ([], Panic p)
      end
  end.

(** What [Read] returns when the callback never stops it. *)
Definition readerEnd (final : option error) : result () :=
  match final with
  | Some e => Err e
  | None => Ok ()
  end.

Definition opensOf (t : list event) : list (StreamName * Config) :=
  omap (λ e, match e with Open stream cfg => Some (stream, cfg) | _ => None end) t.

Definition isReaderClosed (e : event) : bool :=
  match e with ReaderClosed => true | _ => false end.

Definition isError (e : event) : bool :=
  match e with Error _ => true | _ => false end.

(** Every refusal on the trace comes after ten delivered change sets. *)
Definition refusalsAccounted (t : list event) : Prop :=
  ∀ pre change post, t = pre ++ Refused change :: post →
    (updatesCap ≤ length (updatesOf pre))%nat.

(** The consumer cannot have taken more than was delivered. *)
Definition accounted (s : state) : Prop :=
  (length (buffered s) ≤ length (updatesOf (trace s)))%nat ∧
  refusalsAccounted (trace s).

End WatchReadings.
(** ** A concrete setting *)

(** The flags as [pkg/datastore] numbers them. *)
Definition watchContent : WatchContent :=
  {| WatchRelationships := 1; WatchSchema := 2; WatchCheckpoints := 4 |}.

(** The names of the Spanner schema of SpiceDB. *)
Definition spannerSchema : Schema :=
  {| tableRelationship := "relation_tuple";
     tableNamespace := "namespace_config";
     tableCaveat := "caveat";
     colNamespace := "namespace";
     colObjectID := "object_id";
     colRelation := "relation";
     colUsersetNamespace := "userset_namespace";
     colUsersetObjectID := "userset_object_id";
     colUsersetRelation := "userset_relation";
     colCaveatName := "caveat_name";
     colCaveatContext := "caveat_context";
     colNamespaceName := "namespace";
     colNamespaceConfig := "serialized_config";
     colName := "name";
     colCaveatDefinition := "definition" |}.

(** Collaborators that accept only the empty JSON object and no schema
    payload at all. *)
Definition strictCollaborators : Collaborators :=
  {| Struct := gmap string any;
     NamespaceDefinition := string;
     CaveatDefinition := string;
     json_Unmarshal := λ s,
       if String.eqb s "{}" then inr (Some ∅)
       else inl (ErrExternal "json: cannot unmarshal into Go value of type map[string]interface {}");
     structpb_NewStruct := λ m, inr (default ∅ m);
     base64_DecodeString := λ _, inl "illegal base64 data";
     NamespaceDefinition_UnmarshalVT := λ _, inl "proto: cannot parse";
     CaveatDefinition_UnmarshalVT := λ _, inl "proto: cannot parse" |}.

Section Concrete.
#[local] Existing Instances watchContent spannerSchema strictCollaborators.

Definition goodDatastore : spannerDatastore :=
  {| database := "projects/p/instances/i/databases/d";
     credentialsFilePath := "/etc/spanner.json" |}.

Definition badDatastore : spannerDatastore :=
  {| database := "spicedb"; credentialsFilePath := "/etc/spanner.json" |}.

(** A consumer that never reads. *)
Definition idleConsumer : nat → nat := λ _, 0%nat.

Definition worldOf (reader : error + Reader) (ctx : option ctxError) : World :=
  {| NewReaderWithConfig := λ _ _ _ _ _, reader;
     ctxErr := ctx;
     received := idleConsumer |}.

Definition heartbeats (n : nat) : list HeartbeatRecord :=
  (λ i, {| Timestamp := Z.of_nat i |}) <$> seq 1 n.

(** One batch of one change record with eleven heartbeats. *)
Definition elevenHeartbeats : Reader :=
  {| readBatches :=
       [{| ChangeRecords :=
             [{| DataChangeRecords := []; HeartbeatRecords := heartbeats 11 |}] |}];
     readReturn := None |}.

(** A reader that has nothing to hand over and ends by itself. *)
Definition silentReader : Reader := {| readBatches := []; readReturn := None |}.

(** A reader whose [Read] fails at once. *)
Definition failingReader : Reader :=
  {| readBatches := []; readReturn := Some (ErrExternal "rpc error: code = Canceled") |}.

Definition checkpointsOnly : WatchOptions := {| Content := 4; CheckpointInterval := 0 |}.

Definition json (m : gmap string any) : NullJSON := {| Value := AMap m; Valid := true |}.

(** The key of [document:d1#viewer@user:u1]. *)
Definition documentViewerKeys : gmap string any :=
  list_to_map
    [("namespace", AString "document"); ("object_id", AString "d1");
     ("relation", AString "viewer"); ("userset_namespace", AString "user");
     ("userset_object_id", AString "u1"); ("userset_relation", AString "...")].

Definition documentViewer : RelationTuple :=
  {| ResourceAndRelation :=
       {| Namespace := "document"; ObjectId := "d1"; Relation := "viewer" |};
     Subject := {| Namespace := "user"; ObjectId := "u1"; Relation := "..." |};
     Caveat := None |}.

Definition caveatColumns (name context : any) : gmap string any :=
  list_to_map [("caveat_name", name); ("caveat_context", context)].

(** The caveat context goes from null to a JSON array. *)
Definition contextBecomesArray : Mod :=
  {| Keys := json documentViewerKeys;
     NewValues := json (caveatColumns (AString "over_9000") (AString "[]"));
     OldValues := json (caveatColumns (AString "over_9000") ANil) |}.

(** The caveat context goes from null to the empty JSON object. *)
Definition contextBecomesObject : Mod :=
  {| Keys := json documentViewerKeys;
     NewValues := json (caveatColumns (AString "over_9000") (AString "{}"));
     OldValues := json (caveatColumns (AString "over_9000") ANil) |}.

(** A row whose two caveat columns are null, with no old values. *)
Definition nullCaveatRow : Mod :=
  {| Keys := json documentViewerKeys;
     NewValues := json (caveatColumns ANil ANil);
     OldValues := json ∅ |}.

(** An inserted row whose caveat context is a JSON array. *)
Definition insertedWithArrayContext : Mod :=
  {| Keys := json documentViewerKeys;
     NewValues := json (caveatColumns (AString "over_9000") (AString "[]"));
     OldValues := json ∅ |}.

(** A row without caveat, with no old values. *)
Definition plainRow : Mod :=
  {| Keys := json documentViewerKeys;
     NewValues := json (caveatColumns (AString "") ANil);
     OldValues := json ∅ |}.

(** The old values of a deleted row whose caveat columns are null. *)
Definition deletedNullCaveatRow : Mod :=
  {| Keys := json documentViewerKeys;
     NewValues := json ∅;
     OldValues := json (caveatColumns ANil ANil) |}.

(** A deleted row whose key lacks the namespace column. *)
Definition deletedRowWithoutNamespace : Mod :=
  {| Keys := json (delete "namespace" documentViewerKeys);
     NewValues := json ∅;
     OldValues := json (caveatColumns (AString "") ANil) |}.

Definition oneMod (ts : Z) (table modType : string) (mod_ : Mod) : ChangeRecord :=
  {| DataChangeRecords :=
       [{| CommitTimestamp := ts; TableName := table; ModType := modType;
           Mods := [mod_] |}];
     HeartbeatRecords := [] |}.

Definition readerOf (records : list ChangeRecord) : Reader :=
  {| readBatches := [{| ChangeRecords := records |}]; readReturn := None |}.

Definition namespaceKey (name : string) : Mod :=
  {| Keys := json (list_to_map [("namespace", AString name)]);
     NewValues := json ∅;
     OldValues := json ∅ |}.

Definition deleteNamespace (ts : Z) (name : string) : DataChangeRecord :=
  {| CommitTimestamp := ts; TableName := "namespace_config"; ModType := "DELETE";
     Mods := [namespaceKey name] |}.

(** One change record with deletions at revisions 5, 3 and 5. *)
Definition threeDeletions : ChangeRecord :=
  {| DataChangeRecords :=
       [deleteNamespace 5 "document"; deleteNamespace 3 "user";
        deleteNamespace 5 "group"];
     HeartbeatRecords := [] |}.

(** One batch of two change records with a deletion at revision 5 each. *)
Definition sameRevisionTwice : list ChangeRecord :=
  [{| DataChangeRecords := [deleteNamespace 5 "document"]; HeartbeatRecords := [] |};
   {| DataChangeRecords := [deleteNamespace 5 "user"]; HeartbeatRecords := [] |}].

(** One batch of two change records: a heartbeat, then a deletion. *)
Definition heartbeatThenDeletion : list ChangeRecord :=
  [{| DataChangeRecords := []; HeartbeatRecords := [{| Timestamp := 7 |}] |};
   {| DataChangeRecords := [deleteNamespace 7 "user"]; HeartbeatRecords := [] |}].

(** A change record with a deletion at revision 5 and a heartbeat at 6. *)
Definition deletionWithHeartbeat : ChangeRecord :=
  {| DataChangeRecords := [deleteNamespace 5 "document"];
     HeartbeatRecords := [{| Timestamp := 6 |}] |}.

(** One change record with a deletion and a heartbeat. *)
Definition deletionAndHeartbeat : list ChangeRecord :=
  [{| DataChangeRecords := [deleteNamespace 5 "document"];
      HeartbeatRecords := [{| Timestamp := 6 |}] |}].

Definition schemaOnly : WatchOptions := {| Content := 2; CheckpointInterval := 0 |}.

Definition schemaAndCheckpoints : WatchOptions :=
  {| Content := 6; CheckpointInterval := 0 |}.

Definition everything : WatchOptions := {| Content := 7; CheckpointInterval := 0 |}.

End Concrete.

Section ConcreteMore.
#[local] Existing Instances watchContent spannerSchema strictCollaborators.

(** A deleted row without caveat. *)
Definition deletedPlainRow : Mod :=
  {| Keys := json documentViewerKeys;
     NewValues := json ∅;
     OldValues := json (caveatColumns (AString "") ANil) |}.

(** A world whose context has run into its deadline. *)
Definition lateWorld (reader : error + Reader) : World :=
  worldOf reader (Some DeadlineExceeded).

(** A reader whose [Read] fails because the deadline has passed. *)
Definition expiredReader : Reader :=
  {| readBatches := []; readReturn := Some (ErrExternal "context deadline exceeded") |}.

End ConcreteMore.

(** * Properties *)

(** ** Masks *)

Lemma land_eq_subsetOf (c m : Z) : Z.land c m = c ↔ subsetOf c m.
Proof.
  split.
  - intros Hland i Hi Hc. rewrite <- Hland, Z.land_spec in Hc.
    by apply andb_true_iff in Hc as [_ ?].
  - intros Hsub. apply Z.bits_inj'. intros i Hi.
    rewrite Z.land_spec. destruct (Z.testbit c i) eqn:Hc; [|done].
    by rewrite (Hsub i Hi Hc).
Qed.

Lemma subsetOf_pow2 (c : Z) (n : nat) :
  subsetOf c (2 ^ Z.of_nat n) → c = 0 ∨ c = 2 ^ Z.of_nat n.
Proof.
  intros Hsub. destruct (Z.testbit c (Z.of_nat n)) eqn:Hn.
  - right. apply Z.bits_inj'. intros i Hi.
    rewrite Z.pow2_bits_eqb by lia.
    destruct (Z.eqb_spec (Z.of_nat n) i) as [<-|Hne]; [done|].
    destruct (Z.testbit c i) eqn:Hc; [|done].
    specialize (Hsub i Hi Hc). rewrite Z.pow2_bits_eqb in Hsub by lia.
    apply Z.eqb_eq in Hsub. lia.
  - left. apply Z.bits_inj'. intros i Hi. rewrite Z.bits_0.
    destruct (Z.testbit c i) eqn:Hc; [|done].
    specialize (Hsub i Hi Hc). rewrite Z.pow2_bits_eqb in Hsub by lia.
    apply Z.eqb_eq in Hsub. subst i. congruence.
Qed.

Lemma pow2_not_subsetOf_others (r s c : nat) :
  r ≠ s → r ≠ c →
  ¬ subsetOf (2 ^ Z.of_nat r) (Z.lor (2 ^ Z.of_nat s) (2 ^ Z.of_nat c)).
Proof.
  intros Hrs Hrc Hsub. specialize (Hsub (Z.of_nat r)).
  rewrite Z.lor_spec, !Z.pow2_bits_eqb in Hsub by lia.
  rewrite Z.eqb_refl in Hsub.
  rewrite (proj2 (Z.eqb_neq _ _)), (proj2 (Z.eqb_neq _ _)) in Hsub by lia.
  discriminate Hsub; [lia | done].
Qed.

Section Selector.
Context `{WatchContent}.

(** C6. The stream is a function of the content mask alone: the mask that
    is exactly the relationships flag selects the relationships stream; a
    mask with no bit outside the schema and checkpoints flags, the empty
    mask among them, selects the schema stream; every other mask selects
    the combined stream. *)
Theorem stream_selection (Content : Z) :
  IndependentBits →
  (Content = WatchRelationships →
     changeStreamName Content = RelationTupleChangeStreamName) ∧
  (subsetOf Content (Z.lor WatchSchema WatchCheckpoints) →
     changeStreamName Content = SchemaChangeStreamName) ∧
  (Content ≠ WatchRelationships →
   ¬ subsetOf Content (Z.lor WatchSchema WatchCheckpoints) →
     changeStreamName Content = CombinedChangeStreamName).
Proof.
  intros (r & s & c & Hr & Hs & Hc & Hrs & Hrc & Hsc).
  unfold changeStreamName. repeat split.
  - intros ->. rewrite Z.land_diag, Z.eqb_refl.
    destruct (Z.eqb_spec (Z.land WatchRelationships (Z.lor WatchSchema WatchCheckpoints))
                WatchRelationships) as [Heq|]; [|done].
    apply land_eq_subsetOf in Heq. rewrite Hr, Hs, Hc in Heq.
    by apply pow2_not_subsetOf_others in Heq.
  - intros Hsub. apply land_eq_subsetOf in Hsub. by rewrite Hsub, Z.eqb_refl.
  - intros Hne Hnsub.
    destruct (Z.eqb_spec (Z.land Content (Z.lor WatchSchema WatchCheckpoints)) Content)
      as [Heq|_].
    { by apply land_eq_subsetOf in Heq. }
    destruct (Z.eqb_spec (Z.land Content WatchRelationships) Content) as [Heq|]; [|done].
    apply land_eq_subsetOf in Heq. rewrite Hr in Heq.
    apply subsetOf_pow2 in Heq as [->| ->]; [|by rewrite Hr in Hne].
    exfalso. apply Hnsub. intros i _. by rewrite Z.bits_0.
Qed.

End Selector.

Lemma watchContent_independent : @IndependentBits watchContent.
Proof. exists 0%nat, 1%nat, 2%nat. repeat split; done. Qed.

Lemma stream_selection_witness :
  @IndependentBits watchContent ∧
  @changeStreamName watchContent 1 = RelationTupleChangeStreamName.
Proof.
  split; [exact watchContent_independent|].
  apply (@stream_selection watchContent 1 watchContent_independent). reflexivity.
Defined.

(** ** Traces of the delivery loop *)

Section Delivery.
Context `{WatchContent} `{Schema} `{Collaborators}.

Lemma sendError_trace (w : World) (err : error) (s : state) :
  trace (sendError w err s) = trace s ++ [Error (reported w err)].
Proof. unfold sendError, reported. by destruct (ctxErr w) as [[]|]. Qed.



Lemma sendChange_trace (w : World) (change : RevisionChanges) (s s' : state) (ok : bool) :
  sendChange w change s = (ok, s') →
  trace s' = trace s ++ [if ok then Update change else Refused change].
Proof.
  unfold sendChange. case_match; intros [= <- <-]; done.
Qed.

Lemma sendChanges_trace (w : World) (changes : list RevisionChanges) (s s' : state)
    (ok : bool) :
  sendChanges w changes s = (ok, s') →
  (ok = true ∧ trace s' = trace s ++ (Update <$> changes)) ∨
  (ok = false ∧ ∃ sent change rest,
     changes = sent ++ change :: rest ∧
     trace s' = trace s ++ (Update <$> sent) ++ [Refused change]).
Proof.
  revert s. induction changes as [|c cs IH]; intros s; simpl.
  - intros [= <- <-]. left. by rewrite app_nil_r.
  - destruct (sendChange w c s) as [[] s1] eqn:Hsend;
      apply sendChange_trace in Hsend.
    + intros Hrest. apply IH in Hrest as [[-> Ht]|(-> & sent & c' & rest & -> & Ht)].
      * left. split; [done|]. rewrite Ht, Hsend. by rewrite <- app_assoc.
      * right. split; [done|]. exists (c :: sent), c', rest. split; [done|].
        rewrite Ht, Hsend. simpl. by rewrite <- !app_assoc.
    + intros [= <- <-]. right. split; [done|]. exists [], c, cs. by split.
Qed.

Lemma sendChanges_app (w : World) (l1 l2 : list RevisionChanges) (s : state) :
  sendChanges w (l1 ++ l2) s =
  let '(ok, s') := sendChanges w l1 s in
  if ok then sendChanges w l2 s' else (false, s').
Proof.
  revert s. induction l1 as [|c l1 IH]; intros s; simpl; [done|].
  destruct (sendChange w c s) as [[] s1]; [apply IH|done].
Qed.

Lemma IsEmpty_AsRevisionChanges (tracked : Changes) (lessThan : Z → Z → bool) :
  IsEmpty tracked = true → AsRevisionChanges tracked lessThan = [].
Proof.
  unfold IsEmpty, AsRevisionChanges. intros Hsize%Nat.eqb_eq.
  apply map_size_empty_iff in Hsize. by rewrite Hsize, map_to_list_empty.
Qed.

(** One change record sends its planned change sets until one is refused. *)
Lemma handleRecord_planned (w : World) (opts : WatchOptions) (record : ChangeRecord)
    (s : state) :
  handleRecord w opts record s =
  match trackRecord (Content opts) record with
  | Ok tracked =>
      let '(ok, s') := sendChanges w (planned opts record tracked) s in
      (if ok then Ok () else Err ErrWatchDisconnected, s')
  | Err e => (Err e, s)
  | Panic p => (Panic p, s)
  end.
Proof.
  unfold handleRecord, planned.
  destruct (trackRecord (Content opts) record) as [tracked| |]; [|done..].
  rewrite sendChanges_app.
  destruct (IsEmpty tracked) eqn:Hempty; simpl.
  - rewrite (IsEmpty_AsRevisionChanges _ _ Hempty). simpl.
    destruct (checkpointsRequested opts); [|done].
    by destruct (sendChanges w _ s) as [[] ?].
  - destruct (sendChanges w _ s) as [[] s1]; [|done].
    destruct (checkpointsRequested opts); [|done].
    by destruct (sendChanges w _ s1) as [[] ?].
Qed.

End Delivery.

(** ** Traces of a session *)

Lemma split_at_unique {A : Type} (P : A → bool) (l1 l2 pre post : list A) (x y : A) :
  Forall (λ a, P a = false) l1 → Forall (λ a, P a = false) l2 → P y = true →
  l1 ++ x :: l2 = pre ++ y :: post →
  pre = l1 ∧ y = x ∧ post = l2.
Proof.
  intros Hl1 Hl2 Hy. revert pre. induction Hl1 as [|a l1 Ha _ IH]; intros pre Heq.
  - destruct pre as [|b pre]; simplify_eq/=; [done|].
    apply Forall_app in Hl2 as [_ Hl2]. apply Forall_cons in Hl2 as [Hy' _]. congruence.
  - destruct pre as [|b pre]; simpl in Heq; injection Heq as Hab Heq.
    + subst. congruence.
    + subst. by destruct (IH _ Heq) as (-> & -> & ->).
Qed.

Lemma no_split {A : Type} (P : A → bool) (l pre post : list A) (y : A) :
  Forall (λ a, P a = false) l → P y = true → l ≠ pre ++ y :: post.
Proof.
  intros Hl Hy ->. apply Forall_app in Hl as [_ Hl].
  apply Forall_cons in Hl as [Hy' _]. congruence.
Qed.

Section Session.
Context `{WatchContent} `{Schema} `{Collaborators}.

Lemma Updates_not_refused (sent : list RevisionChanges) :
  Forall (λ e, isRefused e = false) (Update <$> sent).
Proof. apply Forall_fmap, Forall_true. done. Qed.

Lemma errorsOf_app (t1 t2 : list event) : errorsOf (t1 ++ t2) = errorsOf t1 ++ errorsOf t2.
Proof. apply omap_app. Qed.

Lemma updatesOf_app (t1 t2 : list event) : updatesOf (t1 ++ t2) = updatesOf t1 ++ updatesOf t2.
Proof. apply omap_app. Qed.

Lemma errorsOf_Updates (sent : list RevisionChanges) : errorsOf (Update <$> sent) = [].
Proof. induction sent; done. Qed.

Lemma updatesOf_Updates (sent : list RevisionChanges) : updatesOf (Update <$> sent) = sent.
Proof. induction sent; simpl; by f_equal. Qed.

Lemma trail_errorsOf (r : result unit) (tail : list event) :
  trail r tail → errorsOf tail = [] ∧ updatesOf tail = [].
Proof. by intros [->|(c & _ & ->)]. Qed.

Lemma trail_Ok (tail : list event) : trail (Ok ()) tail → tail = [].
Proof. by intros [->|(c & ? & _)]. Qed.

Section Runs.
Variables (w : World) (opts : WatchOptions) (P : RevisionChanges → Prop).
Hypothesis planned_P : ∀ record tracked,
  trackRecord (Content opts) record = Ok tracked →
  Forall P (planned opts record tracked).

Lemma handleRecord_run (record : ChangeRecord) (s s' : state) (r : result unit) :
  handleRecord w opts record s = (r, s') →
  ∃ sent tail, trace s' = trace s ++ (Update <$> sent) ++ tail ∧
               Forall P sent ∧ trail r tail.
Proof.
  rewrite handleRecord_planned.
  destruct (trackRecord (Content opts) record) as [tracked|e|p] eqn:Htrack.
  - destruct (sendChanges w _ s) as [ok s1] eqn:Hsend. intros [= <- <-].
    apply planned_P in Htrack.
    apply sendChanges_trace in Hsend
      as [[-> Ht]|(-> & sent & c & rest & Hplan & Ht)].
    + exists (planned opts record tracked), []. rewrite app_nil_r.
      split_and!; [done..|by left].
    + exists sent, [Refused c]. rewrite Hplan in Htrack.
      apply Forall_app in Htrack as [? _]. split_and!; [done..|right; eauto].
  - intros [= <- <-]. exists [], []. rewrite app_nil_r. split_and!; [done..|by left].
  - intros [= <- <-]. exists [], []. rewrite app_nil_r. split_and!; [done..|by left].
Qed.

Lemma handleRecords_run (records : list ChangeRecord) (s s' : state) (r : result unit) :
  handleRecords w opts records s = (r, s') →
  ∃ sent tail, trace s' = trace s ++ (Update <$> sent) ++ tail ∧
               Forall P sent ∧ trail r tail.
Proof.
  revert s. induction records as [|record rest IH]; intros s; simpl.
  - intros [= <- <-]. exists [], []. rewrite app_nil_r. split_and!; [done..|by left].
  - destruct (handleRecord w opts record s) as [r1 s1] eqn:Hrec.
    apply handleRecord_run in Hrec as (sent1 & tail1 & Ht1 & HP1 & Htail1).
    destruct r1 as [[]|e|p].
    + intros (sent2 & tail2 & Ht2 & HP2 & Htail2)%IH.
      apply trail_Ok in Htail1 as ->.
      exists (sent1 ++ sent2), tail2. split_and!; [|by apply Forall_app|done].
      rewrite Ht2, Ht1, fmap_app. by rewrite app_nil_r, <- !app_assoc.
    + intros [= <- <-]. eauto 10.
    + intros [= <- <-]. eauto 10.
Qed.

Lemma Read_run (batches : list ReadResult) (final : option error) (s s' : state)
    (r : result unit) :
  Read (callback w opts) batches final s = (r, s') →
  ∃ sent tail, trace s' = trace s ++ (Update <$> sent) ++ tail ∧
               Forall P sent ∧ trail r tail.
Proof.
  revert s. induction batches as [|batch rest IH]; intros s; simpl.
  - intros [= <- <-]. exists [], []. rewrite app_nil_r. split_and!; [done..|by left].
  - destruct (callback w opts batch s) as [r1 s1] eqn:Hcb.
    apply handleRecords_run in Hcb as (sent1 & tail1 & Ht1 & HP1 & Htail1).
    destruct r1 as [[]|e|p].
    + intros (sent2 & tail2 & Ht2 & HP2 & Htail2)%IH.
      apply trail_Ok in Htail1 as ->.
      exists (sent1 ++ sent2), tail2. split_and!; [|by apply Forall_app|done].
      rewrite Ht2, Ht1, fmap_app. by rewrite app_nil_r, <- !app_assoc.
    + intros [= <- <-]. eauto 10.
    + intros [= <- <-]. eauto 10.
Qed.

(** The four ways a session runs, with the trace of each. *)
Lemma watch_cases (sd : spannerDatastore) (afterRevisionRaw : Revision) :
  (∃ err, parseDatabaseName (database sd) = inl err ∧
     watch w sd afterRevisionRaw opts =
       (Returned, [Error (reported w err); ErrsClosed; UpdatesClosed])) ∨
  (∃ m, parseDatabaseName (database sd) = inr m ∧
     (∀ n, afterRevisionRaw ≠ Decimal n) ∧
     watch w sd afterRevisionRaw opts =
       (Panicked (PanicInterfaceConversion (revisionTypeName afterRevisionRaw)
                    "revision.Decimal"),
        [ErrsClosed; UpdatesClosed])) ∨
  (∃ project instance db n err,
     parseDatabaseName (database sd) = inr (project, instance, db) ∧
     afterRevisionRaw = Decimal n ∧
     NewReaderWithConfig w project instance db
       (changeStreamName (Content opts)) (configOf sd n opts) = inl err ∧
     watch w sd afterRevisionRaw opts =
       (Returned, [Open (changeStreamName (Content opts)) (configOf sd n opts);
                   Error (reported w err); ErrsClosed; UpdatesClosed])) ∨
  (∃ project instance db n reader r s' sent tail,
     parseDatabaseName (database sd) = inr (project, instance, db) ∧
     afterRevisionRaw = Decimal n ∧
     NewReaderWithConfig w project instance db
       (changeStreamName (Content opts)) (configOf sd n opts) = inr reader ∧
     Read (callback w opts) (readBatches reader) (readReturn reader)
       (emit (Open (changeStreamName (Content opts)) (configOf sd n opts)) initial)
       = (r, s') ∧
     Forall P sent ∧ trail r tail ∧
     watch w sd afterRevisionRaw opts =
       (match r with Panic p => Panicked p | _ => Returned end,
        [Open (changeStreamName (Content opts)) (configOf sd n opts)] ++
        (Update <$> sent) ++ tail ++
        match r with Err err => [Error (reported w err)] | _ => [] end ++
        [ReaderClosed; ErrsClosed; UpdatesClosed])).
Proof.
  unfold watch, watchBody. fold initial.
  destruct (parseDatabaseName (database sd)) as [err|[[project instance] db]] eqn:Hparse.
  { left. exists err. split; [done|]. by rewrite sendError_trace. }
  right. destruct afterRevisionRaw as [|n|ty].
  { left. eexists. split_and!; done. }
  2:{ left. eexists. split_and!; done. }
  right. fold (configOf sd n opts).
  set (cfg := configOf sd n opts). set (name := changeStreamName (Content opts)).
  destruct (NewReaderWithConfig w project instance db name cfg) as [err|reader] eqn:Hopen.
  { left. exists project, instance, db, n, err. split_and!; [done..|].
    by rewrite sendError_trace. }
  right. destruct (Read _ _ _ _) as [r s'] eqn:Hread.
  destruct (Read_run _ _ _ _ _ Hread) as (sent & tail & Ht & HP & Htail).
  exists project, instance, db, n, reader, r, s', sent, tail.
  split_and!; [done..|].
  destruct r as [[]|err|p]; simpl; rewrite ?sendError_trace, Ht; simpl;
    by rewrite <- ?app_assoc.
Qed.

End Runs.
End Session.

(** ** The session: errors, backpressure, closing *)

Section SessionClaims.
Context `{WatchContent} `{Schema} `{Collaborators}.

Lemma planned_True (opts : WatchOptions) (record : ChangeRecord) (tracked : Changes) :
  trackRecord (Content opts) record = Ok tracked →
  Forall (λ _, True) (planned opts record tracked).
Proof. intros _. by apply Forall_true. Qed.

(** The errors on the trace of a session: none, or the one that
    [sendError] reported. *)
Lemma watch_errors (w : World) (sd : spannerDatastore) (afterRevisionRaw : Revision)
    (opts : WatchOptions) :
  errorsOf (watch w sd afterRevisionRaw opts).2 = [] ∨
  ∃ err, errorsOf (watch w sd afterRevisionRaw opts).2 = [reported w err].
Proof.
  destruct (watch_cases w opts (λ _, True) (planned_True opts) sd afterRevisionRaw)
    as [(err & _ & ->)|[(m & _ & _ & ->)|[(p & i & d & n & err & _ & _ & _ & ->)|
        (p & i & d & n & reader & r & s' & sent & tail & _ & _ & _ & _ & _ & Htail & ->)]]];
    simpl; eauto.
  apply trail_errorsOf in Htail as [Htail _].
  rewrite !errorsOf_app, errorsOf_Updates, Htail. destruct r; simpl; eauto.
Qed.

(** The error on the trace, exit path by exit path. *)
Lemma watch_errors_by_path (w : World) (sd : spannerDatastore)
    (afterRevisionRaw : Revision) (opts : WatchOptions) :
  (∀ err, parseDatabaseName (database sd) = inl err →
     errorsOf (watch w sd afterRevisionRaw opts).2 = [reported w err]) ∧
  (∀ project instance db n,
     parseDatabaseName (database sd) = inr (project, instance, db) →
     afterRevisionRaw = Decimal n →
     match NewReaderWithConfig w project instance db
             (changeStreamName (Content opts)) (configOf sd n opts) with
     | inl err => errorsOf (watch w sd afterRevisionRaw opts).2 = [reported w err]
     | inr reader =>
         match (Read (callback w opts) (readBatches reader) (readReturn reader)
                  (emit (Open (changeStreamName (Content opts)) (configOf sd n opts))
                        initial)).1 with
         | Err err => errorsOf (watch w sd afterRevisionRaw opts).2 = [reported w err]
         | _ => errorsOf (watch w sd afterRevisionRaw opts).2 = []
         end
     end).
Proof.
  split.
  - intros err Hparse.
    destruct (watch_cases w opts (λ _, True) (planned_True opts) sd afterRevisionRaw)
      as [(err' & ? & ->)|[(m & ? & _ & ->)|[(p & i & d & n & err' & ? & _ & _ & ->)|
          (p & i & d & n & reader & r & s' & sent & tail & ? & _)]]];
      simpl; congruence.
  - intros project instance db n Hparse ->.
    destruct (watch_cases w opts (λ _, True) (planned_True opts) sd (Decimal n))
      as [(err' & ? & _)|[(m & ? & Hnot & _)|[(p & i & d & n' & err' & Hp & Hn & Hopen & ->)|
          (p & i & d & n' & reader & r & s' & sent & tail & Hp & Hn & Hopen & Hread & _ & Htail & ->)]]];
      [congruence|by destruct (Hnot n)|..];
      injection Hn as <-;
      assert (Hpid : (p, i, d) = (project, instance, db)) by congruence;
      injection Hpid as -> -> ->.
    + by rewrite Hopen.
    + rewrite Hopen, Hread. simpl.
      apply trail_errorsOf in Htail as [Htail _].
      rewrite !errorsOf_app, errorsOf_Updates, Htail. by destruct r.
Qed.

(** C1, as the code has it.  When the session's context has been
    cancelled, that is when [ctx.Err()] is [context.Canceled], at the time
    a failure is reported, the error channel gets the canonical
    cancellation error and not the error that caused the report, wherever
    the failure came from: the parser of the database name, the opening of
    the stream, the reader or the callback. *)
Theorem cancellation_normalized (w : World) (sd : spannerDatastore)
    (afterRevisionRaw : Revision) (opts : WatchOptions) :
  ctxErr w = Some Canceled →
  (∀ err s, trace (sendError w err s) = trace s ++ [Error ErrWatchCanceled]) ∧
  (∀ e, e ∈ errorsOf (watch w sd afterRevisionRaw opts).2 → e = ErrWatchCanceled) ∧
  (∀ err, parseDatabaseName (database sd) = inl err →
     errorsOf (watch w sd afterRevisionRaw opts).2 = [ErrWatchCanceled]) ∧
  (∀ project instance db n,
     parseDatabaseName (database sd) = inr (project, instance, db) →
     afterRevisionRaw = Decimal n →
     match NewReaderWithConfig w project instance db
             (changeStreamName (Content opts)) (configOf sd n opts) with
     | inl err => errorsOf (watch w sd afterRevisionRaw opts).2 = [ErrWatchCanceled]
     | inr reader =>
         match (Read (callback w opts) (readBatches reader) (readReturn reader)
                  (emit (Open (changeStreamName (Content opts)) (configOf sd n opts))
                        initial)).1 with
         | Err err => errorsOf (watch w sd afterRevisionRaw opts).2 = [ErrWatchCanceled]
         | _ => True
         end
     end).
Proof.
  intros Hctx.
  assert (Hrep : ∀ err, reported w err = ErrWatchCanceled).
  { intros err. unfold reported. by rewrite Hctx. }
  destruct (watch_errors_by_path w sd afterRevisionRaw opts) as [Hfail Hread].
  split_and!.
  - intros err s. by rewrite sendError_trace, Hrep.
  - intros e. destruct (watch_errors w sd afterRevisionRaw opts) as [->|[err ->]].
    + by intros ?%elem_of_nil.
    + rewrite Hrep. by intros ->%list_elem_of_singleton.
  - intros err Hparse. by rewrite (Hfail err Hparse), Hrep.
  - intros project instance db n Hparse Hn.
    specialize (Hread project instance db n Hparse Hn).
    destruct (NewReaderWithConfig w project instance db _ _) as [err|reader];
      [by rewrite Hread, Hrep|].
    destruct (Read _ _ _ _).1 as [[]|err|p]; [done| |done].
    by rewrite Hread, Hrep.
Qed.


(** C9, as the code has it.  Every session closes the error channel and
    then the data channel, each once and after everything else it does.
    It puts at most one error on the error channel: exactly one when the
    database name does not parse, when the stream cannot be opened and
    when [Read] returns an error (a disconnect among them), and none when
    [Read] returns without an error. *)
Theorem session_closure (w : World) (sd : spannerDatastore)
    (afterRevisionRaw : Revision) (opts : WatchOptions) :
  (∃ body, (watch w sd afterRevisionRaw opts).2 = body ++ [ErrsClosed; UpdatesClosed] ∧
           count isErrsClosed body = 0%nat ∧ count isUpdatesClosed body = 0%nat) ∧
  (length (errorsOf (watch w sd afterRevisionRaw opts).2) ≤ 1)%nat ∧
  (∀ err, parseDatabaseName (database sd) = inl err →
     errorsOf (watch w sd afterRevisionRaw opts).2 = [reported w err]) ∧
  (∀ project instance db n,
     parseDatabaseName (database sd) = inr (project, instance, db) →
     afterRevisionRaw = Decimal n →
     match NewReaderWithConfig w project instance db
             (changeStreamName (Content opts)) (configOf sd n opts) with
     | inl err => errorsOf (watch w sd afterRevisionRaw opts).2 = [reported w err]
     | inr reader =>
         match (Read (callback w opts) (readBatches reader) (readReturn reader)
                  (emit (Open (changeStreamName (Content opts)) (configOf sd n opts))
                        initial)).1 with
         | Err err => errorsOf (watch w sd afterRevisionRaw opts).2 = [reported w err]
         | _ => errorsOf (watch w sd afterRevisionRaw opts).2 = []
         end
     end).
Proof.
  split_and!.
  - destruct (watch_cases w opts (λ _, True) (planned_True opts) sd afterRevisionRaw)
      as [(err & _ & ->)|[(m & _ & _ & ->)|[(p & i & d & n & err & _ & _ & _ & ->)|
          (p & i & d & n & reader & r & s' & sent & tail & _ & _ & _ & _ & _ & Htail & ->)]]];
      simpl.
    { by exists [Error (reported w err)]. }
    { by exists []. }
    { by eexists [_; _]. }
    exists ([Open (changeStreamName (Content opts)) (configOf sd n opts)] ++
            (Update <$> sent) ++ tail ++
            match r with Err err => [Error (reported w err)] | _ => [] end ++
            [ReaderClosed]).
    split; [by rewrite <- !app_assoc|].
    assert (Hnone : ∀ p, (∀ c, p (Update c) = false) → (∀ c, p (Refused c) = false) →
              (∀ e, p (Error e) = false) →
              length (List.filter p (Update <$> sent)) = 0%nat ∧
              length (List.filter p tail) = 0%nat ∧
              length (List.filter p match r with Err err => [Error (reported w err)]
                                             | _ => [] end) = 0%nat).
    { intros q Hu Hr He. split_and!.
      - induction sent; simpl; [done|]. by rewrite Hu.
      - destruct Htail as [->|(c & _ & ->)]; simpl; [done|]. by rewrite Hr.
      - destruct r; simpl; [done| |done]. by rewrite He. }
    unfold count. rewrite !List.filter_app, !length_app.
    split; [destruct (Hnone isErrsClosed) as (-> & -> & ->)
           |destruct (Hnone isUpdatesClosed) as (-> & -> & ->)]; done.
  - destruct (watch_errors w sd afterRevisionRaw opts) as [->|[err ->]]; simpl; lia.
  - apply watch_errors_by_path.
  - apply watch_errors_by_path.
Qed.

End SessionClaims.

(** ** Where the decoder can panic *)

Lemma bind_Panic {A B : Type} (m : result A) (f : A → result B) (p : panic) :
  m ≫= f = Panic p → m = Panic p ∨ ∃ a, m = Ok a ∧ f a = Panic p.
Proof. destruct m; simpl; intros; simplify_eq; eauto. Qed.

Lemma bind_Ok {A B : Type} (m : result A) (f : A → result B) (b : B) :
  m ≫= f = Ok b → ∃ a, m = Ok a ∧ f a = Ok b.
Proof. destruct m; simpl; intros; simplify_eq; eauto. Qed.

Lemma of_sum_no_panic {A : Type} (r : error + A) (p : panic) : of_sum r ≠ Panic p.
Proof. by destruct r. Qed.

Lemma assertString_panic (v : any) (p : panic) :
  assertString v = Panic p → columnPanic p.
Proof. destruct v; simpl; intros; simplify_eq; left; eauto. Qed.

Lemma ifaceEq_panic (a b : any) (p : panic) : ifaceEq a b = Panic p → columnPanic p.
Proof. destruct a, b; simpl; intros; simplify_eq; right; eauto. Qed.

Lemma foldM_panic {A B : Type} (Q : panic → Prop) (f : B → A → result B) (l : list A) :
  (∀ b a p, f b a = Panic p → Q p) →
  ∀ b p, foldM f b l = Panic p → Q p.
Proof.
  intros Hf. induction l as [|a l IH]; intros b p; simpl; [done|].
  intros [Hp|(b' & _ & Hp)]%bind_Panic; eauto.
Qed.

Section DecoderPanics.
Context `{WatchContent} `{Schema} `{Collaborators}.

Lemma relationTupleFromKeys_panic (pk : gmap string any) (p : panic) :
  relationTupleFromKeys pk = Panic p → columnPanic p.
Proof.
  unfold relationTupleFromKeys. intros Hp.
  repeat (apply bind_Panic in Hp as [Hp|(? & _ & Hp)];
          [by apply assertString_panic in Hp|]).
  done.
Qed.

Lemma ContextualizedCaveatFrom_no_panic (name : string) (context : option (gmap string any))
    (p : panic) :
  ContextualizedCaveatFrom name context ≠ Panic p.
Proof.
  unfold ContextualizedCaveatFrom. destruct (nonEmpty name); [|done].
  by destruct (structpb_NewStruct context).
Qed.

Lemma contextualizedCaveatFromValues_panic (values : gmap string any) (p : panic) :
  contextualizedCaveatFromValues values = Panic p → columnPanic p.
Proof.
  unfold contextualizedCaveatFromValues.
  intros [Hp|(name & _ & Hp)]%bind_Panic; [by apply assertString_panic in Hp|].
  destruct (nonEmpty name); [|done].
  apply bind_Panic in Hp as [Hp|(context & _ & Hp)];
    [|by apply ContextualizedCaveatFrom_no_panic in Hp].
  destruct (index values colCaveatContext) eqn:Hctx; try done;
    (apply bind_Panic in Hp as [Hp|(? & _ & Hp)];
     [by apply assertString_panic in Hp|by apply of_sum_no_panic in Hp]).
Qed.

Lemma caveatUnchanged_panic (oldValues newValues : gmap string any) (p : panic) :
  caveatUnchanged oldValues newValues = Panic p → columnPanic p.
Proof.
  unfold caveatUnchanged.
  intros [Hp|([] & _ & Hp)]%bind_Panic; [| |done]; by apply ifaceEq_panic in Hp.
Qed.

Lemma decodeDefinition_no_panic {D : Type} (unmarshalVT : string → string + D)
    (config : string) (p : panic) :
  decodeDefinition unmarshalVT config ≠ Panic p.
Proof. unfold decodeDefinition. repeat case_match; done. Qed.

Lemma decodeMod_panic (changeRevision : Z) (tableName modType : string) (mod_ : Mod)
    (p : panic) :
  decodeMod changeRevision tableName modType mod_ = Panic p → columnPanic p.
Proof.
  unfold decodeMod, MustBugf. intros Hp.
  repeat (case_match; try done);
    repeat match type of Hp with
    | _ ≫= _ = Panic _ =>
        apply bind_Panic in Hp as [Hp|(? & _ & Hp)]
    | relationTupleFromKeys _ = Panic _ => by apply relationTupleFromKeys_panic in Hp
    | contextualizedCaveatFromValues _ = Panic _ =>
        by apply contextualizedCaveatFromValues_panic in Hp
    | caveatUnchanged _ _ = Panic _ => by apply caveatUnchanged_panic in Hp
    | decodeDefinition _ _ = Panic _ => by apply decodeDefinition_no_panic in Hp
    | (if ?b then _ else _) = Panic _ => destruct b
    | match ?x with _ => _ end = Panic _ => destruct x eqn:?
    | _ => done
    end.
Qed.

Lemma track_no_panic (tracked : Changes) (ev : ChangeEvent) (p : panic) :
  track tracked ev ≠ Panic p.
Proof.
  destruct ev; simpl; try done. unfold AddRelationshipChange. by case_match.
Qed.

Lemma trackRecord_panic (Content : Z) (record : ChangeRecord) (p : panic) :
  trackRecord Content record = Panic p → columnPanic p.
Proof.
  unfold trackRecord. apply foldM_panic. intros tracked dcr p'.
  unfold trackDataChangeRecord. apply foldM_panic. intros tracked' mod_ p''.
  unfold trackMod. intros [Hp|(ev & _ & Hp)]%bind_Panic.
  - by apply decodeMod_panic in Hp.
  - destruct ev; [by apply track_no_panic in Hp|done].
Qed.

Lemma handleRecords_panic (w : World) (opts : WatchOptions) (records : list ChangeRecord)
    (s s' : state) (p : panic) :
  handleRecords w opts records s = (Panic p, s') → columnPanic p.
Proof.
  revert s. induction records as [|record rest IH]; intros s; simpl; [done|].
  destruct (handleRecord w opts record s) as [r1 s1] eqn:Hrec.
  destruct r1 as [[]|e|p1]; [apply IH|done|].
  intros [= -> ->]. rewrite handleRecord_planned in Hrec.
  destruct (trackRecord (Content opts) record) eqn:Htrack.
  - by destruct (sendChanges w _ s) as [[] ?].
  - done.
  - injection Hrec as -> _. by apply trackRecord_panic in Htrack.
Qed.

Lemma Read_panic (w : World) (opts : WatchOptions) (batches : list ReadResult)
    (final : option error) (s s' : state) (p : panic) :
  Read (callback w opts) batches final s = (Panic p, s') → columnPanic p.
Proof.
  revert s. induction batches as [|batch rest IH]; intros s; simpl.
  - by destruct final.
  - destruct (callback w opts batch s) as [r1 s1] eqn:Hcb.
    destruct r1 as [[]|e|p1]; [apply IH|done|].
    intros [= -> ->]. by apply handleRecords_panic in Hcb.
Qed.

End DecoderPanics.

(** ** The starting revision *)

Section StartingRevision.
Context `{WatchContent} `{Schema} `{Collaborators}.

(** C10, as the code has it.  [watch] parses the database name before it
    looks at the starting revision.  When the name parses and the starting
    revision is not a Decimal, the goroutine panics on the unchecked type
    assertion: no stream is opened and no error is delivered, the channels
    are only closed.  When the starting revision is a Decimal, that panic
    cannot happen. *)
Theorem starting_revision_must_be_decimal (w : World) (sd : spannerDatastore)
    (afterRevisionRaw : Revision) (opts : WatchOptions) :
  (∀ m, parseDatabaseName (database sd) = inr m →
        (∀ n, afterRevisionRaw ≠ Decimal n) →
        watch w sd afterRevisionRaw opts =
          (Panicked (PanicInterfaceConversion (revisionTypeName afterRevisionRaw)
                       "revision.Decimal"),
           [ErrsClosed; UpdatesClosed])) ∧
  (∀ n have, afterRevisionRaw = Decimal n →
        (watch w sd afterRevisionRaw opts).1 ≠
          Panicked (PanicInterfaceConversion have "revision.Decimal")).
Proof.
  destruct (watch_cases w opts (λ _, True) (planned_True opts) sd afterRevisionRaw)
    as [(err & Hparse & Hw)|[(m & _ & Hnot & Hw)|[(p & i & d & n & err & _ & Hn & _ & Hw)|
        (p & i & d & n & reader & r & s' & sent & tail & _ & Hn & _ & Hread & _ & _ & Hw)]]];
    rewrite Hw; simpl; split.
  - intros m Hm. congruence.
  - done.
  - done.
  - intros n have Hn. by destruct (Hnot n).
  - intros m _ Hnot. by destruct (Hnot n).
  - done.
  - intros m _ Hnot. by destruct (Hnot n).
  - intros n' have _. destruct r as [[]|e|q]; [done..|].
    apply Read_panic in Hread as [[have' ->]|[ty ->]]; intros [=].
Qed.

End StartingRevision.

(** ** The claims at concrete sessions *)

Section ConcreteSessions.
#[local] Existing Instances watchContent spannerSchema strictCollaborators.

(** C1 fails as it is written: a context that has run into its deadline
    is done, yet the error channel gets the error of the reader and not
    the cancellation error. *)
Lemma deadline_is_not_normalized :
  ctxErr (lateWorld (inr expiredReader)) = Some DeadlineExceeded ∧
  errorsOf (watch (lateWorld (inr expiredReader)) goodDatastore (Decimal 0)
              checkpointsOnly).2 = [ErrExternal "context deadline exceeded"].
Proof. split; reflexivity. Qed.

Lemma cancellation_normalized_witness :
  ctxErr (worldOf (inr failingReader) (Some Canceled)) = Some Canceled ∧
  errorsOf (watch (worldOf (inr failingReader) (Some Canceled))
              goodDatastore (Decimal 0) checkpointsOnly).2 = [ErrWatchCanceled] ∧
  ∀ e, e ∈ errorsOf (watch (worldOf (inr failingReader) (Some Canceled))
                       goodDatastore (Decimal 0) checkpointsOnly).2 →
       e = ErrWatchCanceled.
Proof.
  split; [reflexivity|]. split.
  - exact (proj2 (proj2 (proj2 (cancellation_normalized
                                  (worldOf (inr failingReader) (Some Canceled))
                                  goodDatastore (Decimal 0) checkpointsOnly eq_refl)))
             "p" "i" "d" 0 eq_refl eq_refl).
  - apply (proj1 (proj2 (cancellation_normalized
                           (worldOf (inr failingReader) (Some Canceled))
                           goodDatastore (Decimal 0) checkpointsOnly eq_refl))).
Defined.


(** C9 fails as it is written: a session whose reader ends without an
    error closes both channels and delivers no error at all. *)
Lemma clean_return_delivers_no_error :
  (watch (worldOf (inr silentReader) None) goodDatastore (Decimal 0) checkpointsOnly).1
    = Returned ∧
  ¬ ∃ e, errorsOf (watch (worldOf (inr silentReader) None) goodDatastore (Decimal 0)
                     checkpointsOnly).2 = [e].
Proof. split; [reflexivity|]. intros [e He]. vm_compute in He. discriminate He. Qed.

Lemma session_closure_witness :
  parseDatabaseName (database badDatastore) = inl (ErrParseDatabaseName "spicedb") ∧
  errorsOf (watch (worldOf (inr silentReader) None) badDatastore (Decimal 0)
              checkpointsOnly).2 = [ErrParseDatabaseName "spicedb"].
Proof.
  split; [reflexivity|].
  apply (proj1 (proj2 (proj2 (session_closure (worldOf (inr silentReader) None)
                                badDatastore (Decimal 0) checkpointsOnly)))).
  reflexivity.
Defined.

(** C10 fails as it is written: with a database name that does not parse,
    a starting revision of another type ends in a delivered parse error,
    not in a panic. *)
Lemma foreign_revision_without_panic :
  (∀ n, ForeignRevision "postgres.pgRevision" ≠ Decimal n) ∧
  watch (worldOf (inr silentReader) None) badDatastore
        (ForeignRevision "postgres.pgRevision") checkpointsOnly =
    (Returned, [Error (ErrParseDatabaseName "spicedb"); ErrsClosed; UpdatesClosed]).
Proof. split; [done|reflexivity]. Qed.

Lemma starting_revision_must_be_decimal_witness :
  parseDatabaseName (database goodDatastore) = inr ("p", "i", "d") ∧
  (∀ n, ForeignRevision "postgres.pgRevision" ≠ Decimal n) ∧
  watch (worldOf (inr silentReader) None) goodDatastore
        (ForeignRevision "postgres.pgRevision") checkpointsOnly =
    (Panicked (PanicInterfaceConversion "postgres.pgRevision" "revision.Decimal"),
     [ErrsClosed; UpdatesClosed]).
Proof.
  assert (Hparse : parseDatabaseName (database goodDatastore) = inr ("p", "i", "d"))
    by reflexivity.
  assert (Hforeign : ∀ n, ForeignRevision "postgres.pgRevision" ≠ Decimal n) by done.
  split; [exact Hparse|]. split; [exact Hforeign|].
  exact (proj1 (starting_revision_must_be_decimal (worldOf (inr silentReader) None)
                  goodDatastore (ForeignRevision "postgres.pgRevision") checkpointsOnly)
           _ Hparse Hforeign).
Defined.

End ConcreteSessions.

(** ** The decoder on the relationship table *)

Lemma ifaceEq_stringOrNil (a b : any) :
  stringOrNil a → stringOrNil b →
  (a = b ∧ ifaceEq a b = Ok true) ∨ (a ≠ b ∧ ifaceEq a b = Ok false).
Proof.
  intros [->|[x ->]] [->|[y ->]]; simpl; [by left|by right|by right|].
  destruct (String.eqb_spec x y) as [->|Hne]; [by left|right].
  split; [congruence|done].
Qed.

Section RelationshipDecoder.
Context `{WatchContent} `{Schema} `{Collaborators}.

Lemma caveatUnchanged_same (oldValues newValues : gmap string any) :
  stringOrNil (index newValues colCaveatName) →
  stringOrNil (index newValues colCaveatContext) →
  index oldValues colCaveatName = index newValues colCaveatName →
  index oldValues colCaveatContext = index newValues colCaveatContext →
  caveatUnchanged oldValues newValues = Ok true.
Proof.
  intros Hname Hctx Hn Hc. unfold caveatUnchanged. rewrite Hn, Hc.
  destruct (ifaceEq_stringOrNil _ _ Hname Hname) as [[_ ->]|[? _]]; [simpl|done].
  by destruct (ifaceEq_stringOrNil _ _ Hctx Hctx) as [[_ ->]|[? _]].
Qed.

Lemma caveatUnchanged_changed (oldValues newValues : gmap string any) :
  stringOrNil (index oldValues colCaveatName) →
  stringOrNil (index oldValues colCaveatContext) →
  stringOrNil (index newValues colCaveatName) →
  stringOrNil (index newValues colCaveatContext) →
  ¬ (index oldValues colCaveatName = index newValues colCaveatName ∧
     index oldValues colCaveatContext = index newValues colCaveatContext) →
  caveatUnchanged oldValues newValues = Ok false.
Proof.
  intros Hon Hoc Hnn Hnc Hdiff. unfold caveatUnchanged.
  destruct (ifaceEq_stringOrNil _ _ Hon Hnn) as [[Hn ->]|[_ ->]]; [simpl|done].
  destruct (ifaceEq_stringOrNil _ _ Hoc Hnc) as [[Hc _]|[_ ->]]; [|done].
  by destruct Hdiff.
Qed.

(** With a string for a caveat name and a string or null for a context,
    the reconstruction of the caveat does not panic. *)
Lemma contextualizedCaveatFromValues_defined (values : gmap string any) (name : string) :
  index values colCaveatName = AString name →
  stringOrNil (index values colCaveatContext) →
  ∀ p, contextualizedCaveatFromValues values ≠ Panic p.
Proof.
  intros Hname Hctx p Hp. unfold contextualizedCaveatFromValues in Hp.
  rewrite Hname in Hp. simpl in Hp. destruct (nonEmpty name); [|done].
  destruct Hctx as [Hctx|[s Hctx]]; rewrite Hctx in Hp; simpl in Hp.
  - by apply ContextualizedCaveatFrom_no_panic in Hp.
  - apply bind_Panic in Hp as [Hp|(? & _ & Hp)];
      [by apply of_sum_no_panic in Hp|by apply ContextualizedCaveatFrom_no_panic in Hp].
Qed.

(** INSERT and UPDATE run the same code. *)
Lemma insert_is_update (changeRevision : Z) (tableName : string) (mod_ : Mod) :
  decodeMod changeRevision tableName "INSERT" mod_ =
  decodeMod changeRevision tableName "UPDATE" mod_.
Proof. reflexivity. Qed.

(** The branch of lines 231-271, once the three maps are maps. *)
Lemma decodeMod_relationship_upsert (changeRevision : Z) (mod_ : Mod)
    (pk oldValues newValues : gmap string any) :
  Value (Keys mod_) = AMap pk →
  Value (OldValues mod_) = AMap oldValues →
  Value (NewValues mod_) = AMap newValues →
  decodeMod changeRevision tableRelationship "UPDATE" mod_ =
    relationTuple ← relationTupleFromKeys pk;
    unchanged ← caveatUnchanged oldValues newValues;
    if unchanged : bool then Ok None
    else
      caveat ← contextualizedCaveatFromValues newValues;
      Ok (Some (RelationshipChange changeRevision (withCaveat relationTuple caveat)
                  RelationTupleUpdate_TOUCH)).
Proof.
  intros Hkeys Hold Hnew. unfold decodeMod. rewrite Hkeys, Hold, Hnew. simpl.
  by rewrite String.eqb_refl.
Qed.

Lemma decodeMod_needs_keys (changeRevision : Z) (tableName modType : string) (mod_ : Mod)
    (ev : ChangeEvent) :
  decodeMod changeRevision tableName modType mod_ = Ok (Some ev) →
  ∃ pk, Value (Keys mod_) = AMap pk.
Proof. unfold decodeMod. destruct (Value (Keys mod_)); try done. eauto. Qed.

(** C3, as the code has it.  Take an UPDATE on the relationship table
    whose keys, old values and new values are JSON objects and whose
    caveat name and caveat context, old and new, are each a string or
    null.  When the caveat name and the caveat context are the same in the
    old and the new values it emits no change event, and with a
    well-formed key it is skipped without an error.  Otherwise, with a
    well-formed key and a string for its new caveat name, it emits the
    upsert of the tuple of its key with the caveat rebuilt from the new
    values, unless that rebuilding returns an error, and then the decoder
    returns that error and emits nothing. *)
Theorem relationship_update_decoding (changeRevision : Z) (mod_ : Mod)
    (pk oldValues newValues : gmap string any) :
  Value (Keys mod_) = AMap pk →
  Value (OldValues mod_) = AMap oldValues →
  Value (NewValues mod_) = AMap newValues →
  stringOrNil (index oldValues colCaveatName) →
  stringOrNil (index oldValues colCaveatContext) →
  stringOrNil (index newValues colCaveatName) →
  stringOrNil (index newValues colCaveatContext) →
  (index oldValues colCaveatName = index newValues colCaveatName ∧
   index oldValues colCaveatContext = index newValues colCaveatContext →
     (∀ ev, decodeMod changeRevision tableRelationship "UPDATE" mod_ ≠ Ok (Some ev)) ∧
     (∀ tpl, relationTupleFromKeys pk = Ok tpl →
        decodeMod changeRevision tableRelationship "UPDATE" mod_ = Ok None)) ∧
  (¬ (index oldValues colCaveatName = index newValues colCaveatName ∧
      index oldValues colCaveatContext = index newValues colCaveatContext) →
   ∀ tpl name,
     relationTupleFromKeys pk = Ok tpl →
     index newValues colCaveatName = AString name →
     match contextualizedCaveatFromValues newValues with
     | Ok caveat =>
         decodeMod changeRevision tableRelationship "UPDATE" mod_ =
           Ok (Some (RelationshipChange changeRevision (withCaveat tpl caveat)
                       RelationTupleUpdate_TOUCH))
     | Err e => decodeMod changeRevision tableRelationship "UPDATE" mod_ = Err e
     | Panic _ => False
     end).
Proof.
  intros Hkeys Hold Hnew Hon Hoc Hnn Hnc.
  rewrite (decodeMod_relationship_upsert _ _ _ _ _ Hkeys Hold Hnew). split.
  - intros [Hn Hc]. rewrite (caveatUnchanged_same _ _ Hnn Hnc Hn Hc).
    split; [|by intros tpl ->].
    intros ev. by destruct (relationTupleFromKeys pk).
  - intros Hdiff tpl name -> Hname.
    rewrite (caveatUnchanged_changed _ _ Hon Hoc Hnn Hnc Hdiff). simpl.
    pose proof (contextualizedCaveatFromValues_defined _ _ Hname Hnc) as Hdef.
    destruct (contextualizedCaveatFromValues newValues) as [caveat|e|p]; [done..|].
    by destruct (Hdef p).
Qed.

(** C4, as the code has it.  Take an INSERT on the relationship table
    whose keys, old values and new values are JSON objects, with a
    well-formed key, no caveat name among its old values (the column is
    absent or null, as for a row that did not exist), a string for its new
    caveat name and a string or null for its new caveat context.  It is
    never suppressed: it emits the upsert (TOUCH) of the tuple of its key
    with the caveat rebuilt from the new values, unless that rebuilding
    returns an error, and then the decoder returns that error and emits
    nothing. *)
Theorem relationship_insert_decoding (changeRevision : Z) (mod_ : Mod)
    (pk oldValues newValues : gmap string any) (tpl : RelationTuple) (name : string) :
  Value (Keys mod_) = AMap pk →
  Value (OldValues mod_) = AMap oldValues →
  Value (NewValues mod_) = AMap newValues →
  relationTupleFromKeys pk = Ok tpl →
  index oldValues colCaveatName = ANil →
  index newValues colCaveatName = AString name →
  stringOrNil (index newValues colCaveatContext) →
  decodeMod changeRevision tableRelationship "INSERT" mod_ ≠ Ok None ∧
  match contextualizedCaveatFromValues newValues with
  | Ok caveat =>
      decodeMod changeRevision tableRelationship "INSERT" mod_ =
        Ok (Some (RelationshipChange changeRevision (withCaveat tpl caveat)
                    RelationTupleUpdate_TOUCH))
  | Err e => decodeMod changeRevision tableRelationship "INSERT" mod_ = Err e
  | Panic _ => False
  end.
Proof.
  intros Hkeys Hold Hnew Htpl Hon Hname Hnc. rewrite insert_is_update.
  rewrite (decodeMod_relationship_upsert _ _ _ _ _ Hkeys Hold Hnew), Htpl.
  unfold caveatUnchanged. rewrite Hon, Hname. simpl.
  pose proof (contextualizedCaveatFromValues_defined _ _ Hname Hnc) as Hdef.
  destruct (contextualizedCaveatFromValues newValues) as [caveat|e|p]; [done..|].
  by destruct (Hdef p).
Qed.

End RelationshipDecoder.

Section ConcreteDecoding.
#[local] Existing Instances watchContent spannerSchema strictCollaborators.

(** C3 fails as it is written: this UPDATE changes the caveat context,
    yet the decoder emits no upsert; it returns the error of the JSON
    decoder. *)
Lemma changed_update_without_upsert :
  index (caveatColumns (AString "over_9000") ANil) colCaveatContext ≠
    index (caveatColumns (AString "over_9000") (AString "[]")) colCaveatContext ∧
  decodeMod 5 tableRelationship "UPDATE" contextBecomesArray =
    Err (ErrExternal "json: cannot unmarshal into Go value of type map[string]interface {}").
Proof. split; [by vm_compute|reflexivity]. Qed.

Lemma relationship_update_decoding_witness :
  ¬ (index (caveatColumns (AString "over_9000") ANil) colCaveatName =
       index (caveatColumns (AString "over_9000") (AString "{}")) colCaveatName ∧
     index (caveatColumns (AString "over_9000") ANil) colCaveatContext =
       index (caveatColumns (AString "over_9000") (AString "{}")) colCaveatContext) ∧
  decodeMod 5 tableRelationship "UPDATE" contextBecomesObject =
    Ok (Some (RelationshipChange 5
                (withCaveat documentViewer
                   (Some {| CaveatName := "over_9000"; Context := ∅ |}))
                RelationTupleUpdate_TOUCH)).
Proof.
  assert (Hdiff : ¬ (index (caveatColumns (AString "over_9000") ANil) colCaveatName =
       index (caveatColumns (AString "over_9000") (AString "{}")) colCaveatName ∧
     index (caveatColumns (AString "over_9000") ANil) colCaveatContext =
       index (caveatColumns (AString "over_9000") (AString "{}")) colCaveatContext)).
  { intros [_ Hc]. vm_compute in Hc. discriminate Hc. }
  split; [exact Hdiff|].
  refine (proj2 (relationship_update_decoding 5 contextBecomesObject documentViewerKeys
                   (caveatColumns (AString "over_9000") ANil)
                   (caveatColumns (AString "over_9000") (AString "{}"))
                   eq_refl eq_refl eq_refl _ _ _ _)
            Hdiff documentViewer "over_9000" eq_refl eq_refl).
  - right. exists "over_9000". reflexivity.
  - left. reflexivity.
  - right. exists "over_9000". reflexivity.
  - right. exists "{}". reflexivity.
Defined.

(** C4 fails as it is written: this INSERT of a row whose caveat context
    is a JSON array emits no upsert; the decoder returns the error of the
    JSON decoder. *)
Lemma insert_without_upsert :
  decodeMod 5 tableRelationship "INSERT" insertedWithArrayContext =
    Err (ErrExternal "json: cannot unmarshal into Go value of type map[string]interface {}").
Proof. reflexivity. Qed.

Lemma relationship_insert_decoding_witness :
  index (∅ : gmap string any) colCaveatName = ANil ∧
  decodeMod 5 tableRelationship "INSERT" plainRow ≠ Ok None ∧
  decodeMod 5 tableRelationship "INSERT" plainRow =
    Ok (Some (RelationshipChange 5 (withCaveat documentViewer None)
                RelationTupleUpdate_TOUCH)).
Proof.
  split; [reflexivity|].
  refine (relationship_insert_decoding 5 plainRow documentViewerKeys ∅
            (caveatColumns (AString "") ANil) documentViewer ""
            eq_refl eq_refl eq_refl eq_refl eq_refl eq_refl _).
  left. reflexivity.
Defined.

(** C5 does not hold of the code.  A deleted row whose caveat name is
    null, and a key without its namespace column, make the decoder panic
    on an unchecked [.(string)]; the goroutine dies without an error on
    the error channel.  An UPDATE whose caveat name is null in the old and
    the new values is skipped without a word. *)
Theorem malformed_columns_panic :
  decodeMod 5 tableRelationship "DELETE" deletedNullCaveatRow =
    Panic (PanicInterfaceConversion "nil" "string") ∧
  decodeMod 5 tableRelationship "DELETE" deletedRowWithoutNamespace =
    Panic (PanicInterfaceConversion "nil" "string") ∧
  decodeMod 5 tableRelationship "UPDATE" nullCaveatRow = Ok None ∧
  watch (worldOf (inr (readerOf [oneMod 5 tableRelationship "DELETE" deletedNullCaveatRow]))
           None)
        goodDatastore (Decimal 0) everything =
    (Panicked (PanicInterfaceConversion "nil" "string"),
     [Open CombinedChangeStreamName (configOf goodDatastore 0 everything);
      ReaderClosed; ErrsClosed; UpdatesClosed]).
Proof. split_and!; reflexivity. Qed.

End ConcreteDecoding.

(** ** The accumulator *)

Lemma insertByKey_Permutation {A : Type} (lessThan : Z → Z → bool) (x : Z * A)
    (l : list (Z * A)) :
  insertByKey lessThan x l ≡ₚ x :: l.
Proof.
  induction l as [|y l IH]; simpl; [done|].
  destruct (lessThan x.1 y.1); [done|]. by rewrite IH, Permutation_swap.
Qed.

Lemma sortByKey_Permutation {A : Type} (lessThan : Z → Z → bool) (l : list (Z * A)) :
  sortByKey lessThan l ≡ₚ l.
Proof.
  induction l as [|x l IH]; simpl; [done|].
  by rewrite insertByKey_Permutation, IH.
Qed.

Lemma insertByKey_sorted {A : Type} (x : Z * A) (l : list (Z * A)) :
  x.1 ∉ l.*1 →
  StronglySorted Z.lt l.*1 →
  StronglySorted Z.lt (insertByKey DecimalKeyLessThanFunc x l).*1.
Proof.
  intros Hfresh Hsorted. induction l as [|y l IH]; simpl.
  - repeat constructor.
  - apply StronglySorted_inv in Hsorted as [Hl Hy]. simpl in Hfresh.
    apply not_elem_of_cons in Hfresh as [Hne Hfresh].
    unfold DecimalKeyLessThanFunc. destruct (Z.ltb_spec x.1 y.1) as [Hlt|Hge]; simpl.
    + constructor; [by constructor|]. constructor; [done|].
      eapply Forall_impl; [exact Hy|]. simpl. intros; lia.
    + constructor; [by apply IH|].
      rewrite (insertByKey_Permutation _ x l). simpl. constructor; [lia|done].
Qed.

Lemma sortByKey_sorted {A : Type} (l : list (Z * A)) :
  NoDup l.*1 → StronglySorted Z.lt (sortByKey DecimalKeyLessThanFunc l).*1.
Proof.
  induction l as [|x l IH]; simpl; [constructor|].
  intros [Hfresh Hnodup]%NoDup_cons. apply insertByKey_sorted; [|by apply IH].
  by rewrite sortByKey_Permutation.
Qed.

Lemma StronglySorted_lt_NoDup (l : list Z) : StronglySorted Z.lt l → NoDup l.
Proof.
  induction 1 as [|x l _ IH Hx]; constructor; [|done].
  intros Hin. rewrite Forall_forall in Hx. specialize (Hx _ Hin). lia.
Qed.

Section Accumulator.
Context `{WatchContent} `{Schema} `{Collaborators}.

Lemma NewChanges_keyed (Content : Z) : keyed (NewChanges DecimalKeyFunc Content).
Proof. split; [done|]. intros k r. simpl. by rewrite lookup_empty. Qed.

Lemma recordForRevision_revision (ch : Changes) (rev : Z) :
  keyed ch → recRevision (recordForRevision ch rev) = rev.
Proof.
  intros [Hkey Hrec]. unfold recordForRevision. rewrite Hkey. unfold DecimalKeyFunc.
  destruct (records ch !! rev) as [r|] eqn:Hr; simpl; [by apply Hrec|done].
Qed.

Lemma setRecord_keyed (ch : Changes) (rev : Z) (r : changeRecord) :
  keyed ch → recRevision r = rev → keyed (setRecord ch rev r).
Proof.
  intros [Hkey Hrec] Hrev. split; [done|]. intros k r'. simpl.
  rewrite Hkey. unfold DecimalKeyFunc. rewrite lookup_insert.
  case_decide; [by intros [= <-]; subst|apply Hrec].
Qed.

Lemma track_content (ch ch' : Changes) (ev : ChangeEvent) :
  track ch ev = Ok ch' → content ch' = content ch.
Proof.
  destruct ev; simpl;
    unfold AddRelationshipChange, AddDeletedNamespace, AddDeletedCaveat,
      AddChangedDefinition; case_match; by intros [= <-].
Qed.

Lemma track_keyed (ch ch' : Changes) (ev : ChangeEvent) :
  keyed ch → track ch ev = Ok ch' → keyed ch'.
Proof.
  intros Hk. destruct ev; simpl;
    unfold AddRelationshipChange, AddDeletedNamespace, AddDeletedCaveat,
      AddChangedDefinition; case_match; intros [= <-]; try done;
    (apply setRecord_keyed; [done|by apply recordForRevision_revision]).
Qed.

Lemma track_total (ch : Changes) (ev : ChangeEvent) : ∃ ch', track ch ev = Ok ch'.
Proof.
  destruct ev; simpl; eauto. unfold AddRelationshipChange. case_match; eauto.
Qed.

Lemma track_grows (ch ch' : Changes) (ev : ChangeEvent) (k : Z) (r : changeRecord) :
  keyed ch → track ch ev = Ok ch' → records ch !! k = Some r →
  ∃ r', records ch' !! k = Some r' ∧ grows r r'.
Proof.
  intros [Hkey _] Htrack Hr.
  assert (Hsame : grows r r) by (by intros ?).
  assert (Hset : ∀ rev r1,
            grows (recordForRevision ch rev) r1 →
            ∃ r', records (setRecord ch rev r1) !! k = Some r' ∧ grows r r').
  { intros rev r1 Hgrow. simpl. rewrite Hkey. unfold DecimalKeyFunc.
    rewrite lookup_insert. case_decide as Hk; [|eauto]. subst k.
    exists r1. split; [done|]. unfold recordForRevision in Hgrow.
    rewrite Hkey in Hgrow. unfold DecimalKeyFunc in Hgrow. by rewrite Hr in Hgrow. }
  destruct ev; simpl in Htrack;
    unfold AddRelationshipChange, AddDeletedNamespace, AddDeletedCaveat,
      AddChangedDefinition in Htrack;
    case_match; injection Htrack as <-; eauto; apply Hset;
    intros []; unfold carriesRecord; simpl; try done;
    rewrite elem_of_app; auto.
Qed.

Lemma track_holds_old (ch ch' : Changes) (ev ev' : ChangeEvent) :
  keyed ch → track ch ev = Ok ch' → holds ch ev' → holds ch' ev'.
Proof.
  intros Hk Htrack (r & Hr & Hcarries).
  destruct (track_grows _ _ _ _ _ Hk Htrack Hr) as (r' & Hr' & Hgrow).
  exists r'. split; [done|by apply Hgrow].
Qed.

Lemma track_holds_new (ch ch' : Changes) (ev : ChangeEvent) :
  keyed ch → track ch ev = Ok ch' → wanted (content ch) ev → holds ch' ev.
Proof.
  intros [Hkey _] Htrack Hwanted. unfold holds.
  destruct ev; simpl in *;
    unfold AddRelationshipChange, AddDeletedNamespace, AddDeletedCaveat,
      AddChangedDefinition, requested in Htrack;
    rewrite Hwanted, Z.eqb_refl in Htrack; injection Htrack as <-; simpl;
    rewrite Hkey; unfold DecimalKeyFunc; rewrite lookup_insert_eq;
    eexists; (split; [done|]); unfold carriesRecord; simpl;
    rewrite elem_of_app, list_elem_of_singleton; auto.
Qed.

End Accumulator.

(** ** What one change record renders *)

Lemma foldM_app {A B : Type} (f : B → A → result B) (l1 l2 : list A) (b : B) :
  foldM f b (l1 ++ l2) = foldM f b l1 ≫= λ b', foldM f b' l2.
Proof.
  revert b. induction l1 as [|a l1 IH]; intros b; simpl; [done|].
  destruct (f b a); simpl; [apply IH|done..].
Qed.

Section Rendering.
Context `{WatchContent} `{Schema} `{Collaborators}.

Lemma trackMods_events (changeRevision : Z) (tableName modType : string)
    (mods : list Mod) (tracked tracked' : Changes) :
  foldM (trackMod changeRevision tableName modType) tracked mods = Ok tracked' →
  ∃ evs, decodeMods changeRevision tableName modType mods = Ok evs ∧
         foldM track tracked evs = Ok tracked'.
Proof.
  revert tracked. induction mods as [|mod_ rest IH]; intros tracked; simpl.
  - intros [= <-]. by exists [].
  - intros (tracked1 & Hmod & Hrest)%bind_Ok. unfold trackMod in Hmod.
    apply bind_Ok in Hmod as (ev & -> & Hev). simpl.
    apply IH in Hrest as (evs & -> & Hevs). simpl.
    eexists. split; [done|]. rewrite foldM_app.
    destruct ev as [ev|]; simpl; [by rewrite Hev|by injection Hev as ->].
Qed.

Lemma trackRecord_events (Content : Z) (record : ChangeRecord) (tracked : Changes) :
  trackRecord Content record = Ok tracked →
  ∃ evs, decodeRecord record = Ok evs ∧
         foldM track (NewChanges DecimalKeyFunc Content) evs = Ok tracked.
Proof.
  unfold trackRecord, decodeRecord. generalize (NewChanges DecimalKeyFunc Content).
  induction (DataChangeRecords record) as [|dcr rest IH]; intros tracked0; simpl.
  - intros [= <-]. by exists [].
  - intros (tracked1 & Hdcr & Hrest)%bind_Ok. unfold trackDataChangeRecord in Hdcr.
    apply trackMods_events in Hdcr as (evs & -> & Hevs). simpl.
    apply IH in Hrest as (evs' & -> & Hevs'). simpl.
    eexists. split; [done|]. by rewrite foldM_app, Hevs.
Qed.

Lemma foldM_track (ch ch' : Changes) (evs : list ChangeEvent) :
  keyed ch → foldM track ch evs = Ok ch' →
  keyed ch' ∧
  (∀ ev, holds ch ev → holds ch' ev) ∧
  (∀ ev, ev ∈ evs → wanted (content ch) ev → holds ch' ev).
Proof.
  revert ch. induction evs as [|ev evs IH]; intros ch Hk; simpl.
  - intros [= <-]. split_and!; [done..|]. by intros ev ?%elem_of_nil.
  - intros (ch1 & Hev & Hrest)%bind_Ok.
    pose proof (track_keyed _ _ _ Hk Hev) as Hk1.
    destruct (IH _ Hk1 Hrest) as (Hk' & Hold & Hnew).
    rewrite (track_content _ _ _ Hev) in Hnew. split_and!; [done| |].
    + intros ev' Hholds. apply Hold. by apply (track_holds_old _ _ _ _ Hk Hev).
    + intros ev' [->|Hin]%elem_of_cons Hw; [|by apply Hnew].
      apply Hold. by apply (track_holds_new _ _ _ Hk Hev).
Qed.

Lemma nanosOf_renderRecord (r : changeRecord) :
  nanosOf (renderRecord r) = Some (recRevision r).
Proof. done. Qed.

Lemma AsRevisionChanges_sorted (ch : Changes) :
  keyed ch →
  ∃ revisions,
    nanosOf <$> AsRevisionChanges ch DecimalKeyLessThanFunc = Some <$> revisions ∧
    StronglySorted Z.lt revisions.
Proof.
  intros [_ Hrec]. unfold AsRevisionChanges.
  exists (sortByKey DecimalKeyLessThanFunc (map_to_list (records ch))).*1. split.
  - rewrite <- !list_fmap_compose. apply Forall_fmap_ext, Forall_forall.
    intros [k r] Hin. change (Some (recRevision r) = Some k). f_equal. apply Hrec.
    rewrite sortByKey_Permutation in Hin. by apply elem_of_map_to_list in Hin.
  - apply sortByKey_sorted, NoDup_fst_map_to_list.
Qed.

Lemma AsRevisionChanges_holds (ch : Changes) (ev : ChangeEvent) :
  keyed ch → holds ch ev →
  ∃ c, c ∈ AsRevisionChanges ch DecimalKeyLessThanFunc ∧
       nanosOf c = Some (revisionOf ev) ∧ carries c ev.
Proof.
  intros [_ Hrec] (r & Hr & Hcarries). exists (renderRecord r). split_and!.
  - unfold AsRevisionChanges. apply list_elem_of_fmap. exists (revisionOf ev, r).
    split; [done|]. rewrite sortByKey_Permutation. by apply elem_of_map_to_list.
  - rewrite nanosOf_renderRecord. f_equal. by apply Hrec.
  - done.
Qed.

(** C7, as the code has it, for one change record instead of one read
    batch.  The change sets rendered for a change record that decodes come
    in strictly ascending order of revision, so no revision comes twice,
    and every modification of the record that the content mask asks for
    is in the one change set of its revision. *)
Theorem record_rendering (Content : Z) (record : ChangeRecord) (tracked : Changes) :
  trackRecord Content record = Ok tracked →
  (∃ revisions,
     nanosOf <$> AsRevisionChanges tracked DecimalKeyLessThanFunc = Some <$> revisions ∧
     StronglySorted Z.lt revisions ∧ NoDup revisions) ∧
  (∃ evs, decodeRecord record = Ok evs ∧
     ∀ ev, ev ∈ evs → wanted Content ev →
       ∃ c, c ∈ AsRevisionChanges tracked DecimalKeyLessThanFunc ∧
            nanosOf c = Some (revisionOf ev) ∧ carries c ev).
Proof.
  intros (evs & Hevs & Hfold)%trackRecord_events.
  destruct (foldM_track _ _ _ (NewChanges_keyed Content) Hfold) as (Hk & _ & Hnew).
  split.
  - destruct (AsRevisionChanges_sorted _ Hk) as (revisions & Hrev & Hsorted).
    exists revisions. split_and!; [done..|by apply StronglySorted_lt_NoDup].
  - exists evs. split; [done|]. intros ev Hin Hw.
    by apply AsRevisionChanges_holds, Hnew.
Qed.

End Rendering.

(** ** Checkpoints *)

Section Checkpoints.
Context `{WatchContent} `{Schema} `{Collaborators}.

Lemma AsRevisionChanges_not_checkpoints (ch : Changes) (lessThan : Z → Z → bool) :
  Forall (λ c, IsCheckpoint c = false) (AsRevisionChanges ch lessThan).
Proof. unfold AsRevisionChanges. apply Forall_fmap, Forall_true. done. Qed.

Lemma checkpoints_are_checkpoints (hbs : list HeartbeatRecord) :
  Forall (λ c, IsCheckpoint c = true ∧ hasNoData c) (checkpoint <$> hbs).
Proof. apply Forall_fmap, Forall_true. intros hbr. by repeat split. Qed.

Lemma updatesOf_sent (t : list event) (sent : list RevisionChanges)
    (change : RevisionChanges) :
  updatesOf (t ++ (Update <$> sent) ++ [Refused change]) = updatesOf t ++ sent.
Proof. by rewrite !updatesOf_app, updatesOf_Updates, app_nil_r. Qed.

Lemma updatesOf_all (t : list event) (sent : list RevisionChanges) :
  updatesOf (t ++ (Update <$> sent)) = updatesOf t ++ sent.
Proof. by rewrite updatesOf_app, updatesOf_Updates. Qed.

(** While the queue has room for them, all the sends of a loop succeed. *)
Lemma sendChanges_room (w : World) (changes : list RevisionChanges) (s : state) :
  (length (buffered s) + length changes ≤ updatesCap)%nat →
  ∃ s', sendChanges w changes s = (true, s') ∧
        trace s' = trace s ++ (Update <$> changes) ∧
        (length (buffered s') ≤ length (buffered s) + length changes)%nat.
Proof.
  revert s. induction changes as [|c cs IH]; intros s Hroom; simpl in *.
  - exists s. rewrite app_nil_r. split_and!; [done..|lia].
  - unfold sendChange.
    pose proof (length_drop (buffered s) (received w (attempts s))) as Hdrop.
    destruct (Nat.ltb_spec (length (drop (received w (attempts s)) (buffered s)))
                updatesCap); [|lia].
    match goal with |- context [sendChanges w cs ?s1] =>
      destruct (IH s1) as (s' & Hrun & Ht & Hlen) end.
    { simpl. rewrite length_app. simpl. lia. }
    exists s'. simpl in *. rewrite length_app in Hlen. simpl in Hlen.
    split_and!; [done| |lia]. by rewrite Ht, <- app_assoc.
Qed.

(** C8, as the code has it.  Without the checkpoints bit no session ever
    delivers a checkpoint.  With it, a change record that decodes sends
    first its rendered change sets and then one change set per heartbeat
    of the record, flagged as a checkpoint and without data, so that a
    checkpoint of a record is delivered only after all the data change
    sets of that record.  Every heartbeat of the record gets its
    checkpoint provided no send is refused, which is so whenever the queue
    has room for the change sets of the record; a refused send ends the
    record with the disconnect error, the sets before it delivered. *)
Theorem checkpoint_gating (w : World) (opts : WatchOptions) :
  (checkpointsRequested opts = false →
   ∀ sd afterRevisionRaw c,
     c ∈ updatesOf (watch w sd afterRevisionRaw opts).2 → IsCheckpoint c = false) ∧
  (∀ record tracked s r s',
     trackRecord (Content opts) record = Ok tracked →
     handleRecord w opts record s = (r, s') →
     ∃ data cps tail,
       trace s' = trace s ++ (Update <$> data) ++ (Update <$> cps) ++ tail ∧
       data `prefix_of` AsRevisionChanges tracked DecimalKeyLessThanFunc ∧
       Forall (λ c, IsCheckpoint c = false) data ∧
       cps `prefix_of` (checkpoint <$> HeartbeatRecords record) ∧
       Forall (λ c, IsCheckpoint c = true ∧ hasNoData c) cps ∧
       (cps ≠ [] → data = AsRevisionChanges tracked DecimalKeyLessThanFunc) ∧
       (checkpointsRequested opts = false → cps = []) ∧
       ((tail = [] ∧ r = Ok () ∧
         data = AsRevisionChanges tracked DecimalKeyLessThanFunc ∧
         (checkpointsRequested opts = true →
          cps = checkpoint <$> HeartbeatRecords record)) ∨
        (∃ c rest, tail = [Refused c] ∧ r = Err ErrWatchDisconnected ∧
           planned opts record tracked = data ++ cps ++ c :: rest))) ∧
  (∀ record tracked s,
     trackRecord (Content opts) record = Ok tracked →
     checkpointsRequested opts = true →
     (length (buffered s) +
      length (AsRevisionChanges tracked DecimalKeyLessThanFunc) +
      length (HeartbeatRecords record) ≤ updatesCap)%nat →
     ∃ s', handleRecord w opts record s = (Ok (), s') ∧
           trace s' = trace s ++
             (Update <$> AsRevisionChanges tracked DecimalKeyLessThanFunc) ++
             (Update <$> (checkpoint <$> HeartbeatRecords record))).
Proof.
  split_and!.
  - intros Hoff sd afterRevisionRaw c.
    assert (Hplanned : ∀ record tracked,
              trackRecord (Content opts) record = Ok tracked →
              Forall (λ c, IsCheckpoint c = false) (planned opts record tracked)).
    { intros record tracked _. unfold planned. rewrite Hoff, app_nil_r.
      apply AsRevisionChanges_not_checkpoints. }
    destruct (watch_cases w opts _ Hplanned sd afterRevisionRaw)
      as [(err & _ & ->)|[(m & _ & _ & ->)|[(p & i & d & n & err & _ & _ & _ & ->)|
          (p & i & d & n & reader & r & s' & sent & tail & _ & _ & _ & _ & HP & Htail & ->)]]];
      simpl; try by intros ?%elem_of_nil.
    apply trail_errorsOf in Htail as [_ Htail].
    assert (Hrest : updatesOf (match r with Err err => [Error (reported w err)] | _ => [] end)
                    = [])
      by (by destruct r).
    rewrite !updatesOf_app, updatesOf_Updates, Htail, Hrest. simpl.
    rewrite app_nil_r. rewrite Forall_forall in HP. apply HP.
  - intros record tracked s r s' Htrack. rewrite handleRecord_planned, Htrack.
    unfold planned. rewrite sendChanges_app.
    set (A := AsRevisionChanges tracked DecimalKeyLessThanFunc).
    pose proof (AsRevisionChanges_not_checkpoints tracked DecimalKeyLessThanFunc) as HA.
    fold A in HA.
    destruct (sendChanges w A s) as [ok1 s1] eqn:Hs1.
    apply sendChanges_trace in Hs1 as [[-> Ht1]|(-> & sent & c & rest & HAeq & Ht1)].
    + destruct (checkpointsRequested opts) eqn:Hreq.
      * set (B := checkpoint <$> HeartbeatRecords record).
        pose proof (checkpoints_are_checkpoints (HeartbeatRecords record)) as HB.
        fold B in HB.
        destruct (sendChanges w B s1) as [ok2 s2] eqn:Hs2.
        apply sendChanges_trace in Hs2 as [[-> Ht2]|(-> & sent & c & rest & HBeq & Ht2)];
          intros [= <- <-].
        -- exists A, B, []. rewrite Ht2, Ht1, app_nil_r, <- app_assoc.
           split_and!; try done. left. by split_and!.
        -- exists A, sent, [Refused c]. rewrite Ht2, Ht1, <- !app_assoc.
           rewrite HBeq in HB. apply Forall_app in HB as [HB _].
           split_and!; try done; [by exists (c :: rest)|].
           right. exists c, rest. split_and!; [done..|]. by rewrite <- HBeq.
      * simpl. intros [= <- <-]. exists A, [], [].
        rewrite Ht1. simpl. rewrite !app_nil_r.
        split_and!; try done; [by apply prefix_nil|]. left. by split_and!.
    + intros [= <- <-]. exists sent, [], [Refused c].
      rewrite Ht1. simpl.
      pose proof HA as HA'. rewrite HAeq in HA'. apply Forall_app in HA' as [HA' _].
      split_and!; try done; [by exists (c :: rest)|by apply prefix_nil|].
      right. exists c, (rest ++ if checkpointsRequested opts
                                 then checkpoint <$> HeartbeatRecords record else []).
      split_and!; [done..|]. by rewrite HAeq, <- app_assoc.
  - intros record tracked s Htrack Hreq Hroom.
    rewrite handleRecord_planned, Htrack. unfold planned. rewrite Hreq.
    destruct (sendChanges_room w
                (AsRevisionChanges tracked DecimalKeyLessThanFunc ++
                 (checkpoint <$> HeartbeatRecords record)) s) as (s' & -> & Ht & _).
    { rewrite length_app, length_fmap. lia. }
    exists s'. split; [done|]. by rewrite Ht, fmap_app.
Qed.

End Checkpoints.

Section ConcreteBatches.
#[local] Existing Instances watchContent spannerSchema strictCollaborators.

(** C7 fails as it is written: one batch of two change records with a
    modification at revision 5 each is delivered as two change sets of
    revision 5, neither merged nor in strictly ascending order. *)
Lemma same_revision_delivered_twice :
  nanosOf <$> updatesOf (watch (worldOf (inr (readerOf sameRevisionTwice)) None)
                           goodDatastore (Decimal 0) schemaOnly).2
    = [Some 5; Some 5].
Proof. reflexivity. Qed.

Lemma record_rendering_witness :
  ∃ tracked,
    trackRecord 2 threeDeletions = Ok tracked ∧
    ∃ revisions,
      nanosOf <$> AsRevisionChanges tracked DecimalKeyLessThanFunc = Some <$> revisions ∧
      StronglySorted Z.lt revisions ∧ NoDup revisions.
Proof.
  eexists. split; [vm_compute; reflexivity|].
  eapply (proj1 (record_rendering 2 threeDeletions _ _)).
  Unshelve. vm_compute. reflexivity.
Defined.

(** C8 fails as it is written: in this batch the checkpoint of the first
    change record is delivered before the data change set of the second. *)
Lemma checkpoint_before_data_of_its_batch :
  IsCheckpoint <$> updatesOf (watch (worldOf (inr (readerOf heartbeatThenDeletion)) None)
                                goodDatastore (Decimal 0) schemaAndCheckpoints).2
    = [true; false].
Proof. reflexivity. Qed.

Lemma checkpoint_gating_witness :
  ∃ tracked s',
    trackRecord (Content schemaAndCheckpoints) deletionWithHeartbeat = Ok tracked ∧
    checkpointsRequested schemaAndCheckpoints = true ∧
    handleRecord (worldOf (inr silentReader) None) schemaAndCheckpoints
      deletionWithHeartbeat initial = (Ok (), s') ∧
    trace s' = trace initial ++
      (Update <$> AsRevisionChanges tracked DecimalKeyLessThanFunc) ++
      (Update <$> (checkpoint <$> HeartbeatRecords deletionWithHeartbeat)).
Proof.
  exists (match trackRecord (Content schemaAndCheckpoints) deletionWithHeartbeat with
          | Ok tracked => tracked
          | _ => NewChanges DecimalKeyFunc 0
          end).
  assert (Htrack : trackRecord (Content schemaAndCheckpoints) deletionWithHeartbeat =
            Ok (match trackRecord (Content schemaAndCheckpoints) deletionWithHeartbeat with
                | Ok tracked => tracked
                | _ => NewChanges DecimalKeyFunc 0
                end)) by (vm_compute; reflexivity).
  assert (Hreq : checkpointsRequested schemaAndCheckpoints = true) by reflexivity.
  destruct (proj2 (proj2 (checkpoint_gating (worldOf (inr silentReader) None)
                            schemaAndCheckpoints))
              deletionWithHeartbeat _ initial Htrack Hreq) as (s' & Hrun & Ht).
  { vm_compute. lia. }
  exists s'. split_and!; assumption.
Defined.

End ConcreteBatches.

(** * Further properties of the code *)

(** ** The database name *)

Lemma splitSlash_cons (s : string) : ∃ seg more, splitSlash s = seg :: more.
Proof.
  induction s as [|c s (seg & more & IH)]; simpl; [eauto|].
  destruct (Ascii.eqb c "/"); [eauto|]. rewrite IH. eauto.
Qed.

Lemma splitSlash_noSlash (s : string) : noSlash s = true → splitSlash s = [s].
Proof.
  induction s as [|c s IH]; simpl; [done|].
  intros [Hc Hs]%andb_true_iff. apply negb_true_iff in Hc. by rewrite Hc, IH.
Qed.

Lemma splitSlash_app (a b : string) :
  noSlash a = true → splitSlash (a +:+ "/" +:+ b) = a :: splitSlash b.
Proof.
  induction a as [|c a IH]; simpl; [done|].
  intros [Hc Ha]%andb_true_iff. apply negb_true_iff in Hc. by rewrite Hc, IH.
Qed.

Lemma joinSlash_cons (seg : string) (segs : list string) :
  segs ≠ [] → joinSlash (seg :: segs) = seg +:+ "/" +:+ joinSlash segs.
Proof. by destruct segs. Qed.

Lemma joinSlash_splitSlash (s : string) : joinSlash (splitSlash s) = s.
Proof.
  induction s as [|c s IH]; simpl; [done|].
  destruct (splitSlash_cons s) as (seg & more & Hs). rewrite Hs in IH |- *.
  destruct (Ascii.eqb_spec c "/") as [->|_].
  - rewrite joinSlash_cons by done. by rewrite IH.
  - destruct more as [|seg' more].
    + simpl in *. by rewrite IH.
    + rewrite joinSlash_cons in IH |- * by done. by rewrite <- IH.
Qed.

Lemma splitSlash_segments (s : string) : Forall (λ seg, noSlash seg = true) (splitSlash s).
Proof.
  induction s as [|c s IH]; simpl; [by repeat constructor|].
  destruct (Ascii.eqb c "/") eqn:Hc; [by constructor|].
  destruct (splitSlash s) as [|seg more]; [by repeat constructor; simpl; rewrite Hc|].
  apply Forall_cons in IH as [Hseg Hmore]. constructor; [|done].
  simpl. by rewrite Hc, Hseg.
Qed.

Lemma nonEmpty_true (s : string) : nonEmpty s = true ↔ s ≠ "".
Proof.
  unfold nonEmpty. rewrite negb_true_iff. by destruct (String.eqb_spec s "").
Qed.

Lemma parseDatabaseName_error (db : string) (err : error) :
  parseDatabaseName db = inl err → err = ErrParseDatabaseName db.
Proof. unfold parseDatabaseName. destruct (validDBPattern db); by intros [= <-]. Qed.

(** X1. [parseDatabaseName] accepts exactly the names
    [projects/P/instances/I/databases/D] whose three parts are not empty
    and hold no slash, and hands back those three parts; for every other
    string it returns the parse error that carries the string. *)
Theorem parseDatabaseName_exact (db project instance database : string) :
  (parseDatabaseName db = inr (project, instance, database) ↔
     db = databaseName project instance database ∧
     project ≠ "" ∧ instance ≠ "" ∧ database ≠ "" ∧
     noSlash project = true ∧ noSlash instance = true ∧ noSlash database = true) ∧
  (∀ err, parseDatabaseName db = inl err → err = ErrParseDatabaseName db).
Proof.
  split; [split|].
  - unfold parseDatabaseName, validDBPattern.
    pose proof (joinSlash_splitSlash db) as Hjoin.
    pose proof (splitSlash_segments db) as Hsegs.
    destruct (splitSlash db) as [|p0 [|p [|p2 [|i [|p4 [|d [|? ?]]]]]]]; try done.
    destruct (String.eqb_spec p0 "projects") as [->|]; [|done].
    destruct (String.eqb_spec p2 "instances") as [->|]; [|done].
    destruct (String.eqb_spec p4 "databases") as [->|]; [|done]. simpl.
    destruct (nonEmpty p) eqn:Hp; [|done]. destruct (nonEmpty i) eqn:Hi; [|done].
    destruct (nonEmpty d) eqn:Hd; [|done]. simpl. intros [= <- <- <-].
    apply nonEmpty_true in Hp, Hi, Hd.
    repeat (apply Forall_cons in Hsegs as [? Hsegs]).
    split_and!; try done; by rewrite <- Hjoin.
  - intros (-> & Hp & Hi & Hd & Hsp & Hsi & Hsd).
    unfold parseDatabaseName, validDBPattern, databaseName.
    replace ("projects/" +:+ project +:+ "/instances/" +:+ instance +:+ "/databases/"
             +:+ database)
      with ("projects" +:+ "/" +:+ (project +:+ "/" +:+ ("instances" +:+ "/" +:+
              (instance +:+ "/" +:+ ("databases" +:+ "/" +:+ database))))) by done.
    rewrite !splitSlash_app, (splitSlash_noSlash database) by done. simpl.
    apply nonEmpty_true in Hp, Hi, Hd. by rewrite Hp, Hi, Hd.
  - intros err. apply parseDatabaseName_error.
Qed.

(** ** The session, further *)

Section SessionExtras.
Context `{WatchContent} `{Schema} `{Collaborators}.

Lemma opensOf_app (t1 t2 : list event) : opensOf (t1 ++ t2) = opensOf t1 ++ opensOf t2.
Proof. apply omap_app. Qed.

Lemma opensOf_Updates (sent : list RevisionChanges) : opensOf (Update <$> sent) = [].
Proof. induction sent; done. Qed.

Lemma trail_quiet (r : result ()) (tail : list event) :
  trail r tail →
  opensOf tail = [] ∧ Forall (λ e, isError e = false) tail ∧
  count isReaderClosed tail = 0%nat.
Proof. intros [->|(c & _ & ->)]; split_and!; by repeat constructor. Qed.

Lemma Updates_quiet (sent : list RevisionChanges) :
  Forall (λ e, isError e = false) (Update <$> sent) ∧
  count isReaderClosed (Update <$> sent) = 0%nat.
Proof.
  split; [apply Forall_fmap, Forall_true; done|]. induction sent; done.
Qed.

Lemma count_app (p : event → bool) (t1 t2 : list event) :
  count p (t1 ++ t2) = (count p t1 + count p t2)%nat.
Proof. unfold count. by rewrite List.filter_app, length_app. Qed.

Lemma configOf_heartbeat (sd : spannerDatastore) (n : Z) (opts : WatchOptions) :
  HeartbeatInterval (configOf sd n opts) = Z.max (CheckpointInterval opts) (100 * Millisecond).
Proof. unfold configOf. simpl. case_match; lia. Qed.

(** X2. A session opens at most one stream, and only after the database
    name has parsed and the starting revision has proved to be a Decimal:
    the stream that the content mask selects, from the timestamp of the
    starting revision, with the credentials of the datastore and with a
    heartbeat interval that is the checkpoint interval raised to 100ms. *)
Theorem stream_opened_once (w : World) (sd : spannerDatastore)
    (afterRevisionRaw : Revision) (opts : WatchOptions) :
  (opensOf (watch w sd afterRevisionRaw opts).2 = [] ∨
   ∃ n cfg, afterRevisionRaw = Decimal n ∧
     opensOf (watch w sd afterRevisionRaw opts).2
       = [(changeStreamName (Content opts), cfg)] ∧
     StartTimestamp cfg = timestampFromRevision n ∧
     HeartbeatInterval cfg = Z.max (CheckpointInterval opts) 100000000 ∧
     CredentialsFile cfg = credentialsFilePath sd) ∧
  (∀ err, parseDatabaseName (database sd) = inl err →
     opensOf (watch w sd afterRevisionRaw opts).2 = []) ∧
  ((∀ n, afterRevisionRaw ≠ Decimal n) →
     opensOf (watch w sd afterRevisionRaw opts).2 = []).
Proof.
  destruct (watch_cases w opts (λ _, True) (planned_True opts) sd afterRevisionRaw)
    as [(err & Hparse & ->)|[(m & Hparse & Hnot & ->)|
        [(p & i & d & n & err & Hparse & Hn & _ & ->)|
         (p & i & d & n & reader & r & s' & sent & tail & Hparse & Hn & _ & _ & _ & Htail & ->)]]];
    simpl.
  - split_and!; [by left|done..].
  - split_and!; [by left|done..].
  - split_and!; [|congruence|intros Hnot; by destruct (Hnot n)].
    right. exists n, (configOf sd n opts). split_and!; try done.
    apply configOf_heartbeat.
  - apply trail_quiet in Htail as (Htail & _ & _).
    assert (Hopens : opensOf ((Update <$> sent) ++ tail ++
                        match r with Err err => [Error (reported w err)] | _ => [] end ++
                        [ReaderClosed; ErrsClosed; UpdatesClosed]) = []).
    { rewrite !opensOf_app, opensOf_Updates, Htail. by destruct r. }
    rewrite Hopens.
    split_and!; [|congruence|intros Hnot; by destruct (Hnot n)].
    right. exists n, (configOf sd n opts). split_and!; try done.
    apply configOf_heartbeat.
Qed.

(** X3. [reader.Close] is deferred once a reader has been obtained: the
    session then closes the reader exactly once, after its last delivery
    and its error and right before the two channels, also when the
    callback panics.  A session that did not obtain a reader never closes
    one. *)
Theorem reader_released (w : World) (sd : spannerDatastore)
    (afterRevisionRaw : Revision) (opts : WatchOptions) :
  (∀ project instance db n reader,
     parseDatabaseName (database sd) = inr (project, instance, db) →
     afterRevisionRaw = Decimal n →
     NewReaderWithConfig w project instance db
       (changeStreamName (Content opts)) (configOf sd n opts) = inr reader →
     ∃ body, (watch w sd afterRevisionRaw opts).2
               = body ++ [ReaderClosed; ErrsClosed; UpdatesClosed] ∧
             count isReaderClosed body = 0%nat) ∧
  (∀ err, parseDatabaseName (database sd) = inl err →
     count isReaderClosed (watch w sd afterRevisionRaw opts).2 = 0%nat) ∧
  ((∀ n, afterRevisionRaw ≠ Decimal n) →
     count isReaderClosed (watch w sd afterRevisionRaw opts).2 = 0%nat) ∧
  (∀ project instance db n err,
     parseDatabaseName (database sd) = inr (project, instance, db) →
     afterRevisionRaw = Decimal n →
     NewReaderWithConfig w project instance db
       (changeStreamName (Content opts)) (configOf sd n opts) = inl err →
     count isReaderClosed (watch w sd afterRevisionRaw opts).2 = 0%nat).
Proof.
  destruct (watch_cases w opts (λ _, True) (planned_True opts) sd afterRevisionRaw)
    as [(err & Hparse & ->)|[(m & Hparse & Hnot & ->)|
        [(p & i & d & n & err & Hparse & Hn & Hopen & ->)|
         (p & i & d & n & reader & r & s' & sent & tail & Hparse & Hn & Hopen & _ & _ & Htail & ->)]]];
    simpl.
  - split_and!; try done; intros; congruence.
  - split_and!; try done; intros; subst; by destruct (Hnot n).
  - split_and!; try done. intros project instance db n' reader Hp Hn' Hopen'.
    subst. injection Hn' as <-.
    assert (Hpid : (p, i, d) = (project, instance, db)) by congruence.
    injection Hpid as -> -> ->. congruence.
  - apply trail_quiet in Htail as (_ & _ & Htail).
    split_and!.
    + intros _ _ _ _ _ _ _ _.
      exists ([Open (changeStreamName (Content opts)) (configOf sd n opts)] ++
              (Update <$> sent) ++ tail ++
              match r with Err err => [Error (reported w err)] | _ => [] end).
      split; [by rewrite <- !app_assoc|].
      rewrite !count_app, (proj2 (Updates_quiet sent)), Htail. by destruct r.
    + intros; congruence.
    + intros Hnot. by destruct (Hnot n).
    + intros project instance db n' err Hp Hn' Hopen'.
      subst. injection Hn' as <-.
      assert (Hpid : (p, i, d) = (project, instance, db)) by congruence.
      injection Hpid as -> -> ->. congruence.
Qed.

(** X4. As long as the context is not cancelled (a context that ran into
    its deadline is not), the error on the error channel is the very error
    that ended the session: the parse error with the database name, the
    error of the stream library, or what [Read] returned. *)
Theorem errors_unchanged_without_cancellation (w : World) (sd : spannerDatastore)
    (afterRevisionRaw : Revision) (opts : WatchOptions) :
  ctxErr w ≠ Some Canceled →
  (∀ err s, trace (sendError w err s) = trace s ++ [Error err]) ∧
  (∀ err, parseDatabaseName (database sd) = inl err →
     errorsOf (watch w sd afterRevisionRaw opts).2
       = [ErrParseDatabaseName (database sd)]) ∧
  (∀ project instance db n,
     parseDatabaseName (database sd) = inr (project, instance, db) →
     afterRevisionRaw = Decimal n →
     match NewReaderWithConfig w project instance db
             (changeStreamName (Content opts)) (configOf sd n opts) with
     | inl err => errorsOf (watch w sd afterRevisionRaw opts).2 = [err]
     | inr reader =>
         match (Read (callback w opts) (readBatches reader) (readReturn reader)
                  (emit (Open (changeStreamName (Content opts)) (configOf sd n opts))
                        initial)).1 with
         | Err err => errorsOf (watch w sd afterRevisionRaw opts).2 = [err]
         | _ => errorsOf (watch w sd afterRevisionRaw opts).2 = []
         end
     end).
Proof.
  intros Hctx.
  assert (Hrep : ∀ err, reported w err = err).
  { intros err. unfold reported. by destruct (ctxErr w) as [[]|]. }
  destruct (watch_errors_by_path w sd afterRevisionRaw opts) as [Hfail Hread].
  split_and!.
  - intros err s. by rewrite sendError_trace, Hrep.
  - intros err Hparse. rewrite (Hfail err Hparse), Hrep.
    by rewrite (parseDatabaseName_error _ _ Hparse).
  - intros project instance db n Hparse Hn.
    specialize (Hread project instance db n Hparse Hn).
    destruct (NewReaderWithConfig w project instance db _ _) as [err|reader];
      [by rewrite Hread, Hrep|].
    destruct (Read _ _ _ _).1 as [[]|err|p]; [done| |done].
    by rewrite Hread, Hrep.
Qed.

(** X5. A session that panics delivers no error.  It panics either on
    the starting revision, before it has done anything but close its
    channels, or on a column of a modification, after which the reader and
    the channels are still closed. *)
Theorem panic_delivers_no_error (w : World) (sd : spannerDatastore)
    (afterRevisionRaw : Revision) (opts : WatchOptions) (p : panic) :
  (watch w sd afterRevisionRaw opts).1 = Panicked p →
  errorsOf (watch w sd afterRevisionRaw opts).2 = [] ∧
  (((∀ n, afterRevisionRaw ≠ Decimal n) ∧
    p = PanicInterfaceConversion (revisionTypeName afterRevisionRaw) "revision.Decimal" ∧
    (watch w sd afterRevisionRaw opts).2 = [ErrsClosed; UpdatesClosed]) ∨
   ((∃ n, afterRevisionRaw = Decimal n) ∧ columnPanic p ∧
    ∃ body, (watch w sd afterRevisionRaw opts).2
              = body ++ [ReaderClosed; ErrsClosed; UpdatesClosed])).
Proof.
  destruct (watch_cases w opts (λ _, True) (planned_True opts) sd afterRevisionRaw)
    as [(err & Hparse & ->)|[(m & Hparse & Hnot & ->)|
        [(q & i & d & n & err & Hparse & Hn & Hopen & ->)|
         (q & i & d & n & reader & r & s' & sent & tail & Hparse & Hn & Hopen & Hread & _ & Htail & ->)]]];
    simpl; try done.
  - intros [= <-]. split; [done|]. left. by split_and!.
  - destruct r as [[]|err|p']; try done. intros [= ->].
    apply trail_errorsOf in Htail as [Htail _].
    split; [by rewrite !errorsOf_app, errorsOf_Updates, Htail|].
    right. split_and!; [eauto|by apply Read_panic in Hread|].
    exists (Open (changeStreamName (Content opts)) (configOf sd n opts)
            :: (Update <$> sent) ++ tail).
    simpl. by rewrite <- !app_assoc.
Qed.

(** X6. The error is the last word of a session: after the error on the
    error channel the session delivers nothing and only closes the reader,
    when there is one, and the two channels; and no error comes before
    it. *)
Theorem error_is_last (w : World) (sd : spannerDatastore)
    (afterRevisionRaw : Revision) (opts : WatchOptions)
    (pre post : list event) (e : error) :
  (watch w sd afterRevisionRaw opts).2 = pre ++ Error e :: post →
  errorsOf pre = [] ∧
  (post = [ErrsClosed; UpdatesClosed] ∨
   post = [ReaderClosed; ErrsClosed; UpdatesClosed]).
Proof.
  destruct (watch_cases w opts (λ _, True) (planned_True opts) sd afterRevisionRaw)
    as [(err & Hparse & ->)|[(m & Hparse & Hnot & ->)|
        [(q & i & d & n & err & Hparse & Hn & Hopen & ->)|
         (q & i & d & n & reader & r & s' & sent & tail & Hparse & Hn & Hopen & Hread & _ & Htail & ->)]]];
    simpl.
  - intros Heq. apply (split_at_unique isError []) in Heq as (-> & _ & ->);
      [auto|constructor|by repeat constructor|done].
  - intros Heq. exfalso. revert Heq. apply (no_split isError); by repeat constructor.
  - change (?a :: Error ?b :: ?l) with ([a] ++ Error b :: l).
    intros Heq. apply (split_at_unique isError) in Heq as (-> & _ & ->);
      [auto|by repeat constructor..|done].
  - pose proof (trail_errorsOf _ _ Htail) as [Htail' _].
    apply trail_quiet in Htail as (_ & Htail & _).
    destruct (Updates_quiet sent) as [Hsent _].
    destruct r as [[]|err|p]; simpl.
    + intros Heq. exfalso. revert Heq. apply (no_split isError); [|done].
      constructor; [done|]. rewrite !Forall_app. split_and!; by repeat constructor.
    + rewrite app_comm_cons, app_assoc.
      intros Heq. apply (split_at_unique isError) in Heq as (-> & _ & ->);
        [| |by repeat constructor|done].
      * split; [|auto]. simpl. by rewrite errorsOf_app, errorsOf_Updates.
      * apply Forall_app. split; [by constructor|done].
    + intros Heq. exfalso. revert Heq. apply (no_split isError); [|done].
      constructor; [done|]. rewrite !Forall_app. split_and!; by repeat constructor.
Qed.

End SessionExtras.

(** ** What is delivered *)

Section DeliveryExtras.
Context `{WatchContent} `{Schema} `{Collaborators}.

Lemma handleRecords_app (w : World) (opts : WatchOptions) (l1 l2 : list ChangeRecord)
    (s : state) :
  handleRecords w opts (l1 ++ l2) s =
  match handleRecords w opts l1 s with
  | (Ok _, s') => handleRecords w opts l2 s'
  | stop => stop
  end.
Proof.
  revert s. induction l1 as [|record l1 IH]; intros s; simpl; [done|].
  destruct (handleRecord w opts record s) as [[[]|e|p] s1]; [apply IH|done..].
Qed.

(** [Read] with the callback is one loop over all the change records. *)
Lemma Read_handleRecords (w : World) (opts : WatchOptions) (batches : list ReadResult)
    (final : option error) (s : state) :
  Read (callback w opts) batches final s =
  match handleRecords w opts (recordsOf batches) s with
  | (Ok _, s') => (readerEnd final, s')
  | stop => stop
  end.
Proof.
  revert s. induction batches as [|batch rest IH]; intros s; simpl; [done|].
  unfold recordsOf in *. simpl. rewrite handleRecords_app. unfold callback at 1.
  destruct (handleRecords w opts (ChangeRecords batch) s) as [[[]|e|p] s1]; [apply IH|done..].
Qed.

Lemma handleRecords_plan (w : World) (opts : WatchOptions) (records : list ChangeRecord)
    (s s' : state) (r : result ()) :
  handleRecords w opts records s = (r, s') →
  (r = (planRecords opts records).2 ∧
   trace s' = trace s ++ (Update <$> (planRecords opts records).1)) ∨
  (r = Err ErrWatchDisconnected ∧
   ∃ sent change rest,
     (planRecords opts records).1 = sent ++ change :: rest ∧
     trace s' = trace s ++ (Update <$> sent) ++ [Refused change]).
Proof.
  revert s. induction records as [|record rest IH]; intros s; simpl.
  - intros [= <- <-]. left. by rewrite app_nil_r.
  - rewrite handleRecord_planned.
    destruct (trackRecord (Content opts) record) as [tracked|e|p]; simpl.
    2,3: intros [= <- <-]; left; by rewrite app_nil_r.
    destruct (planRecords opts rest) as [sets outcome] eqn:Hplan. simpl in *.
    destruct (sendChanges w (planned opts record tracked) s) as [ok s1] eqn:Hsend.
    apply sendChanges_trace in Hsend as [[-> Ht]|(-> & sent & c & more & Hpl & Ht)].
    + intros [[-> Ht']|(-> & sent & c & more & -> & Ht')]%IH.
      * left. split; [done|]. by rewrite Ht', Ht, fmap_app, <- app_assoc.
      * right. split; [done|].
        exists (planned opts record tracked ++ sent), c, more.
        split; [by rewrite <- app_assoc|].
        by rewrite Ht', Ht, fmap_app, <- !app_assoc.
    + intros [= <- <-]. right. split; [done|].
      exists sent, c, (more ++ sets). split; [|done].
      by rewrite Hpl, <- app_assoc.
Qed.

(** The trace of a session that has obtained a reader. *)
Lemma watch_with_reader (w : World) (sd : spannerDatastore) (opts : WatchOptions)
    (project instance db : string) (n : Z) (reader : Reader) (r : result ()) (s : state) :
  parseDatabaseName (database sd) = inr (project, instance, db) →
  NewReaderWithConfig w project instance db
    (changeStreamName (Content opts)) (configOf sd n opts) = inr reader →
  handleRecords w opts (recordsOf (readBatches reader))
    (emit (Open (changeStreamName (Content opts)) (configOf sd n opts)) initial) = (r, s) →
  (watch w sd (Decimal n) opts).2 =
    trace s ++
    match r with
    | Ok _ => match readReturn reader with
              | Some e => [Error (reported w e)]
              | None => []
              end
    | Err e => [Error (reported w e)]
    | Panic _ => []
    end ++ [ReaderClosed; ErrsClosed; UpdatesClosed].
Proof.
  intros Hparse Hopen Hrun. unfold watch, watchBody. fold initial.
  rewrite Hparse. fold (configOf sd n opts). rewrite Hopen.
  rewrite Read_handleRecords, Hrun.
  destruct r as [[]|e|p]; simpl.
  - unfold readerEnd. destruct (readReturn reader) as [e|]; simpl;
      rewrite ?sendError_trace; by rewrite <- ?app_assoc.
  - rewrite sendError_trace. by rewrite <- !app_assoc.
  - by rewrite <- !app_assoc.
Qed.

Lemma updatesOf_opened (stream : StreamName) (cfg : Config) (sent : list RevisionChanges)
    (extra : list event) :
  updatesOf (Open stream cfg :: (Update <$> sent) ++ extra) = sent ++ updatesOf extra.
Proof. simpl. by rewrite updatesOf_app, updatesOf_Updates. Qed.

Lemma errorsOf_opened (stream : StreamName) (cfg : Config) (sent : list RevisionChanges)
    (extra : list event) :
  errorsOf (Open stream cfg :: (Update <$> sent) ++ extra) = errorsOf extra.
Proof. simpl. by rewrite errorsOf_app, errorsOf_Updates. Qed.

Lemma not_refused_opened (stream : StreamName) (cfg : Config) (sent : list RevisionChanges)
    (extra : list event) :
  Forall (λ e, isRefused e = false) extra →
  Forall (λ e, isRefused e = false) (Open stream cfg :: (Update <$> sent) ++ extra).
Proof.
  intros Hextra. constructor; [done|]. apply Forall_app.
  split; [apply Updates_not_refused|done].
Qed.

(** The session that has obtained a reader, against its plan. *)
Lemma watch_plan (w : World) (sd : spannerDatastore) (opts : WatchOptions)
    (project instance db : string) (n : Z) (reader : Reader) :
  parseDatabaseName (database sd) = inr (project, instance, db) →
  NewReaderWithConfig w project instance db
    (changeStreamName (Content opts)) (configOf sd n opts) = inr reader →
  let plan := planRecords opts (recordsOf (readBatches reader)) in
  let t := (watch w sd (Decimal n) opts).2 in
  (updatesOf t = plan.1 ∧ Forall (λ e, isRefused e = false) t ∧
   errorsOf t = match plan.2 with
                | Ok _ => match readReturn reader with
                          | Some e => [reported w e]
                          | None => []
                          end
                | Err e => [reported w e]
                | Panic _ => []
                end) ∨
  (∃ sent change rest,
     plan.1 = sent ++ change :: rest ∧ updatesOf t = sent ∧
     Refused change ∈ t ∧ errorsOf t = [reported w ErrWatchDisconnected]).
Proof.
  intros Hparse Hopen plan t. subst t.
  destruct (handleRecords w opts (recordsOf (readBatches reader))
              (emit (Open (changeStreamName (Content opts)) (configOf sd n opts)) initial))
    as [r s1] eqn:Hrun.
  rewrite (watch_with_reader _ _ _ _ _ _ _ _ _ _ Hparse Hopen Hrun).
  apply handleRecords_plan in Hrun. fold plan in Hrun. simpl in Hrun.
  destruct Hrun as [[-> ->]|(-> & sent & c & rest & Hpl & ->)].
  - left. rewrite <- ?app_comm_cons, <- ?app_assoc.
    rewrite updatesOf_opened, errorsOf_opened.
    split_and!.
    + destruct plan.2 as [[]|e|p]; [destruct (readReturn reader)|..];
        simpl; by rewrite app_nil_r.
    + apply not_refused_opened.
      destruct plan.2 as [[]|e|p]; [destruct (readReturn reader)|..];
        by repeat constructor.
    + by destruct plan.2 as [[]|e|p]; [destruct (readReturn reader)|..].
  - right. exists sent, c, rest.
    rewrite <- ?app_comm_cons, <- ?app_assoc.
    rewrite updatesOf_opened, errorsOf_opened. simpl. rewrite app_nil_r.
    split_and!; [done..| |done].
    rewrite elem_of_cons, elem_of_app, elem_of_cons. auto.
Qed.

(** X7. What a session delivers is what its change records plan, in their
    order: the change sets of every record up to the first one that does
    not decode, each record as a whole.  They are delivered in full, and
    the error is then that of the record that did not decode or else what
    the reader ended with, unless a send is refused; then the consumer has
    received the sets before the refused one, and the disconnect error. *)
Theorem delivery_follows_plan (w : World) (sd : spannerDatastore) (opts : WatchOptions)
    (project instance db : string) (n : Z) (reader : Reader) :
  parseDatabaseName (database sd) = inr (project, instance, db) →
  NewReaderWithConfig w project instance db
    (changeStreamName (Content opts)) (configOf sd n opts) = inr reader →
  let plan := planRecords opts (recordsOf (readBatches reader)) in
  let t := (watch w sd (Decimal n) opts).2 in
  (updatesOf t = plan.1 ∧ Forall (λ e, isRefused e = false) t ∧
   errorsOf t = match plan.2 with
                | Ok _ => match readReturn reader with
                          | Some e => [reported w e]
                          | None => []
                          end
                | Err e => [reported w e]
                | Panic _ => []
                end) ∨
  (∃ sent change rest,
     plan.1 = sent ++ change :: rest ∧ updatesOf t = sent ∧
     Refused change ∈ t ∧ errorsOf t = [reported w ErrWatchDisconnected]).
Proof. apply watch_plan. Qed.

End DeliveryExtras.

(** ** When a send can be refused *)

Lemma snoc_split {A : Type} (t pre post : list A) (e x : A) :
  t ++ [e] = pre ++ x :: post →
  (post = [] ∧ pre = t ∧ x = e) ∨ ∃ post', post = post' ++ [e] ∧ t = pre ++ x :: post'.
Proof.
  destruct post as [|y post _] using rev_ind.
  - intros [-> ->]%app_inj_tail. by left.
  - rewrite app_comm_cons, app_assoc. intros [-> ->]%app_inj_tail. right. eauto.
Qed.

Section Refusals.
Context `{WatchContent} `{Schema} `{Collaborators}.

Lemma refusalsAccounted_nil : refusalsAccounted [].
Proof. intros [|? ?] c post; done. Qed.

Lemma refusalsAccounted_snoc (t : list event) (e : event) :
  refusalsAccounted t → isRefused e = false → refusalsAccounted (t ++ [e]).
Proof.
  intros Ht He pre c post [(_ & _ & <-)|(post' & _ & Heq)]%snoc_split; [done|].
  by eapply Ht.
Qed.

Lemma refusalsAccounted_refuse (t : list event) (change : RevisionChanges) :
  refusalsAccounted t → (updatesCap ≤ length (updatesOf t))%nat →
  refusalsAccounted (t ++ [Refused change]).
Proof.
  intros Ht Hcap pre c post [(_ & -> & _)|(post' & _ & Heq)]%snoc_split; [done|].
  by eapply Ht.
Qed.

Lemma refusalsAccounted_app (t extra : list event) :
  refusalsAccounted t → Forall (λ e, isRefused e = false) extra →
  refusalsAccounted (t ++ extra).
Proof.
  intros Ht. induction extra as [|e extra IH] using rev_ind.
  - by rewrite app_nil_r.
  - intros [Hextra He]%Forall_app. apply Forall_cons in He as [He _].
    rewrite app_assoc. apply refusalsAccounted_snoc; auto.
Qed.

Lemma emit_accounted (e : event) (s : state) :
  isRefused e = false → accounted s → accounted (emit e s).
Proof.
  intros He [Hlen Href]. split; simpl.
  - rewrite updatesOf_app, length_app. lia.
  - by apply refusalsAccounted_snoc.
Qed.

Lemma sendError_accounted (w : World) (err : error) (s : state) :
  accounted s → accounted (sendError w err s).
Proof. unfold sendError. intros Hs. by destruct (ctxErr w) as [[]|]; apply emit_accounted. Qed.

Lemma sendChange_accounted (w : World) (change : RevisionChanges) (s s' : state) (ok : bool) :
  accounted s → sendChange w change s = (ok, s') → accounted s'.
Proof.
  intros [Hlen Href]. unfold sendChange.
  pose proof (length_drop (buffered s) (received w (attempts s))) as Hdrop.
  destruct (Nat.ltb_spec (length (drop (received w (attempts s)) (buffered s))) updatesCap);
    intros [= <- <-]; split; simpl.
  - rewrite updatesOf_app, !length_app. simpl. lia.
  - by apply refusalsAccounted_snoc.
  - rewrite updatesOf_app, length_app. lia.
  - apply refusalsAccounted_refuse; [done|lia].
Qed.

Lemma sendChanges_accounted (w : World) (changes : list RevisionChanges) (s s' : state)
    (ok : bool) :
  accounted s → sendChanges w changes s = (ok, s') → accounted s'.
Proof.
  revert s. induction changes as [|c cs IH]; intros s Hs; simpl.
  - by intros [= <- <-].
  - destruct (sendChange w c s) as [[] s1] eqn:Hsend;
      apply (sendChange_accounted _ _ _ _ _ Hs) in Hsend.
    + by apply IH.
    + by intros [= <- <-].
Qed.

Lemma handleRecords_accounted (w : World) (opts : WatchOptions) (records : list ChangeRecord)
    (s s' : state) (r : result ()) :
  accounted s → handleRecords w opts records s = (r, s') → accounted s'.
Proof.
  revert s. induction records as [|record rest IH]; intros s Hs; simpl.
  - by intros [= <- <-].
  - destruct (handleRecord w opts record s) as [r1 s1] eqn:Hrec.
    assert (Hs1 : accounted s1).
    { rewrite handleRecord_planned in Hrec.
      destruct (trackRecord (Content opts) record); [|by injection Hrec as _ <-..].
      destruct (sendChanges w _ s) as [ok s2] eqn:Hsend. injection Hrec as _ <-.
      by eapply sendChanges_accounted. }
    destruct r1 as [[]|e|p]; [by apply IH|by intros [= <- <-]..].
Qed.

(** Every refusal of a session comes after ten delivered change sets. *)
Lemma watch_refusals (w : World) (sd : spannerDatastore) (afterRevisionRaw : Revision)
    (opts : WatchOptions) :
  refusalsAccounted (watch w sd afterRevisionRaw opts).2.
Proof.
  assert (Hinit : accounted initial) by (split; [done|apply refusalsAccounted_nil]).
  unfold watch. fold initial.
  assert (Hbody : accounted (watchBody w sd afterRevisionRaw opts initial).2).
  { unfold watchBody.
    destruct (parseDatabaseName (database sd)) as [err|[[project instance] db]]; simpl.
    { by apply sendError_accounted. }
    destruct afterRevisionRaw as [|n|ty]; simpl; [done| |done].
    match goal with |- context [emit ?e initial] => set (s0 := emit e initial) end.
    assert (Hs0 : accounted s0) by (by apply emit_accounted).
    destruct (NewReaderWithConfig w _ _ _ _ _) as [err|reader]; simpl.
    { by apply sendError_accounted. }
    rewrite Read_handleRecords.
    destruct (handleRecords w opts (recordsOf (readBatches reader)) s0) as [r s1] eqn:Hrun.
    apply (handleRecords_accounted _ _ _ _ _ _ Hs0) in Hrun.
    destruct r as [[]|e|p]; simpl.
    - unfold readerEnd. destruct (readReturn reader); simpl;
        apply emit_accounted; auto using sendError_accounted.
    - apply emit_accounted; auto using sendError_accounted.
    - by apply emit_accounted. }
  destruct (watchBody w sd afterRevisionRaw opts initial) as [o s]. simpl in *.
  apply refusalsAccounted_app; [apply Hbody|by repeat constructor].
Qed.

(** X8. Whatever the consumer does, no send of a session is refused
    before ten change sets have been delivered: the queue of capacity 10
    cannot be full earlier. *)
Theorem refused_only_after_ten (w : World) (sd : spannerDatastore)
    (afterRevisionRaw : Revision) (opts : WatchOptions)
    (pre post : list event) (change : RevisionChanges) :
  (watch w sd afterRevisionRaw opts).2 = pre ++ Refused change :: post →
  (10 ≤ length (updatesOf pre))%nat.
Proof. apply watch_refusals. Qed.

(** X9. A reader whose change records plan at most ten change sets in
    all is served in full whatever the consumer does: every planned
    change set is delivered, in order, and no send is refused. *)
Theorem small_sessions_delivered_in_full (w : World) (sd : spannerDatastore)
    (opts : WatchOptions) (project instance db : string) (n : Z) (reader : Reader) :
  parseDatabaseName (database sd) = inr (project, instance, db) →
  NewReaderWithConfig w project instance db
    (changeStreamName (Content opts)) (configOf sd n opts) = inr reader →
  (length (planRecords opts (recordsOf (readBatches reader))).1 ≤ 10)%nat →
  updatesOf (watch w sd (Decimal n) opts).2
    = (planRecords opts (recordsOf (readBatches reader))).1 ∧
  Forall (λ e, isRefused e = false) (watch w sd (Decimal n) opts).2.
Proof.
  intros Hparse Hopen Hsmall.
  destruct (watch_plan w sd opts _ _ _ n reader Hparse Hopen)
    as [(Hall & Hnone & _)|(sent & c & rest & Hplan & Hsent & Hin & _)]; [done|].
  exfalso. apply list_elem_of_split in Hin as (pre & post & Heq).
  pose proof (watch_refusals w sd (Decimal n) opts pre c post Heq) as Hten.
  rewrite Heq, updatesOf_app in Hsent.
  apply (f_equal length) in Hsent. rewrite length_app in Hsent.
  rewrite Hplan, length_app in Hsmall. simpl in Hsmall. unfold updatesCap in Hten. lia.
Qed.

End Refusals.

(** ** The decoder, further *)

Lemma assertString_Ok (v : any) (s : string) : assertString v = Ok s ↔ v = AString s.
Proof. destruct v; simpl; split; intros; simplify_eq; done. Qed.

Lemma assertString_no_error (v : any) (e : error) : assertString v ≠ Err e.
Proof. by destruct v. Qed.

Lemma bind_Err {A B : Type} (m : result A) (f : A → result B) (e : error) :
  m ≫= f = Err e → m = Err e ∨ ∃ a, m = Ok a ∧ f a = Err e.
Proof. destruct m; simpl; intros; simplify_eq; eauto. Qed.

Lemma asString_None_index (m : gmap string any) (k : string) :
  asString (index m k) = None →
  m !! k = None ∨ ∃ v, m !! k = Some v ∧ asString v = None.
Proof. unfold index. destruct (m !! k) as [v|]; simpl; eauto. Qed.

Section DecoderExtras.
Context `{WatchContent} `{Schema} `{Collaborators}.

(** X10. [relationTupleFromKeys] yields a tuple exactly when the six key
    columns hold strings, and the tuple then carries those six strings and
    no caveat; it never returns an error. *)
Theorem relationTupleFromKeys_exact (pk : gmap string any) (tpl : RelationTuple) :
  (relationTupleFromKeys pk = Ok tpl ↔
     index pk colNamespace = AString (Namespace (ResourceAndRelation tpl)) ∧
     index pk colObjectID = AString (ObjectId (ResourceAndRelation tpl)) ∧
     index pk colRelation = AString (Relation (ResourceAndRelation tpl)) ∧
     index pk colUsersetNamespace = AString (Namespace (Subject tpl)) ∧
     index pk colUsersetObjectID = AString (ObjectId (Subject tpl)) ∧
     index pk colUsersetRelation = AString (Relation (Subject tpl)) ∧
     Caveat tpl = None) ∧
  (∀ e, relationTupleFromKeys pk ≠ Err e).
Proof.
  unfold relationTupleFromKeys. split; [split|].
  - intros Hok.
    repeat (apply bind_Ok in Hok as (? & ?%assertString_Ok & Hok)).
    injection Hok as <-. by split_and!.
  - intros (Ka & Kb & Kc & Kd & Ke & Kf & Kg).
    rewrite Ka, Kb, Kc, Kd, Ke, Kf. simpl.
    destruct tpl as [[] [] ?]. simpl in *. by subst.
  - intros e He.
    repeat (apply bind_Err in He as [He|(? & _ & He)];
            [by apply assertString_no_error in He|]).
    done.
Qed.

(** X11. Every event that the decoder emits carries the commit revision
    of its data change record.  A DELETE yields only deletions, an INSERT
    or UPDATE only a TOUCH or a changed definition, each for the table of
    its kind; the decoder never emits a CREATE. *)
Theorem decodeMod_event_shape (changeRevision : Z) (tableName modType : string)
    (mod_ : Mod) (ev : ChangeEvent) :
  decodeMod changeRevision tableName modType mod_ = Ok (Some ev) →
  revisionOf ev = changeRevision ∧
  match ev with
  | RelationshipChange _ _ op =>
      tableName = tableRelationship ∧
      ((modType = "DELETE" ∧ op = RelationTupleUpdate_DELETE) ∨
       ((modType = "INSERT" ∨ modType = "UPDATE") ∧ op = RelationTupleUpdate_TOUCH))
  | DeletedNamespace _ _ => tableName = tableNamespace ∧ modType = "DELETE"
  | DeletedCaveat _ _ => tableName = tableCaveat ∧ modType = "DELETE"
  | ChangedDefinition _ (OfNamespace _) =>
      tableName = tableNamespace ∧ (modType = "INSERT" ∨ modType = "UPDATE")
  | ChangedDefinition _ (OfCaveat _) =>
      tableName = tableCaveat ∧ (modType = "INSERT" ∨ modType = "UPDATE")
  end.
Proof.
  unfold decodeMod, MustBugf. intros Hev.
  destruct (asMap (Value (Keys mod_))) as [pk|]; [|done].
  destruct (String.eqb_spec modType "DELETE") as [->|_].
  - destruct (String.eqb_spec tableName tableRelationship) as [->|_].
    { apply bind_Ok in Hev as (tpl & _ & Hev).
      destruct (asMap (Value (OldValues mod_))); [|done].
      apply bind_Ok in Hev as (caveat & _ & [= <-]). simpl. auto. }
    destruct (String.eqb_spec tableName tableNamespace) as [->|_].
    { repeat case_match; simplify_eq. simpl. auto. }
    destruct (String.eqb_spec tableName tableCaveat) as [->|_]; [|done].
    repeat case_match; simplify_eq. simpl. auto.
  - assert (Hmod : String.eqb modType "INSERT" || String.eqb modType "UPDATE" = true →
                   modType = "INSERT" ∨ modType = "UPDATE").
    { intros [?%String.eqb_eq|?%String.eqb_eq]%orb_true_iff; auto. }
    destruct (String.eqb modType "INSERT" || String.eqb modType "UPDATE"); [|done].
    specialize (Hmod eq_refl).
    destruct (asMap (Value (NewValues mod_))) as [newValues|]; [|done].
    destruct (String.eqb_spec tableName tableRelationship) as [->|_].
    { apply bind_Ok in Hev as (tpl & _ & Hev).
      destruct (asMap (Value (OldValues mod_))); [|done].
      apply bind_Ok in Hev as ([] & _ & Hev); [done|].
      apply bind_Ok in Hev as (caveat & _ & [= <-]). simpl. auto. }
    destruct (String.eqb_spec tableName tableNamespace) as [->|_].
    { repeat case_match; try done;
        apply bind_Ok in Hev as (? & _ & [= <-]); simpl; auto. }
    destruct (String.eqb_spec tableName tableCaveat) as [->|_]; [|done].
    repeat case_match; try done;
      apply bind_Ok in Hev as (? & _ & [= <-]); simpl; auto.
Qed.

(** X12. A modification that the decoder does not know is fatal and is
    neither skipped nor a panic: when the keys are not a JSON object, when
    the modification type is none of DELETE, INSERT and UPDATE, and when
    the table is none of the three tables, the decoder returns an
    internal-invariant error. *)
Theorem unknown_modifications_are_fatal (changeRevision : Z) (tableName modType : string)
    (mod_ : Mod) :
  (asMap (Value (Keys mod_)) = None →
     ∃ msg, decodeMod changeRevision tableName modType mod_ = Err (ErrBug msg)) ∧
  (∀ pk, Value (Keys mod_) = AMap pk →
     modType ≠ "DELETE" → modType ≠ "INSERT" → modType ≠ "UPDATE" →
     ∃ msg, decodeMod changeRevision tableName modType mod_ = Err (ErrBug msg)) ∧
  (∀ pk, Value (Keys mod_) = AMap pk →
     tableName ≠ tableRelationship → tableName ≠ tableNamespace →
     tableName ≠ tableCaveat →
     modType = "DELETE" ∨ modType = "INSERT" ∨ modType = "UPDATE" →
     ∃ msg, decodeMod changeRevision tableName modType mod_ = Err (ErrBug msg)).
Proof.
  unfold decodeMod, MustBugf. split_and!.
  - intros ->. eauto.
  - intros pk -> HD HI HU. simpl.
    apply String.eqb_neq in HD, HI, HU. rewrite HD, HI, HU. simpl. eauto.
  - intros pk -> HR HN HC Hmod. simpl.
    apply String.eqb_neq in HR, HN, HC. rewrite HR, HN, HC.
    destruct Hmod as [->|[->| ->]]; simpl; [eauto|..];
      destruct (asMap (Value (NewValues mod_))); eauto.
Qed.

(** X13. A DELETE on the relationship table takes its caveat from the
    old values and never looks at the new ones.  With a well-formed key:
    old values that are not a JSON object give an internal-invariant
    error; otherwise the outcome is that of the rebuilding of the caveat
    from the old values: the deletion of the tuple of the key with that
    caveat, or the error of the rebuilding, or its panic on a caveat column
    of the wrong type. *)
Theorem relationship_delete_decoding (changeRevision : Z) (mod_ : Mod)
    (pk : gmap string any) (tpl : RelationTuple) :
  Value (Keys mod_) = AMap pk →
  relationTupleFromKeys pk = Ok tpl →
  (asMap (Value (OldValues mod_)) = None →
     ∃ msg, decodeMod changeRevision tableRelationship "DELETE" mod_ = Err (ErrBug msg)) ∧
  (∀ oldValues,
     Value (OldValues mod_) = AMap oldValues →
     decodeMod changeRevision tableRelationship "DELETE" mod_ =
       match contextualizedCaveatFromValues oldValues with
       | Ok caveat =>
           Ok (Some (RelationshipChange changeRevision (withCaveat tpl caveat)
                       RelationTupleUpdate_DELETE))
       | Err e => Err e
       | Panic p => Panic p
       end) ∧
  (∀ mod', Keys mod' = Keys mod_ → OldValues mod' = OldValues mod_ →
     decodeMod changeRevision tableRelationship "DELETE" mod' =
     decodeMod changeRevision tableRelationship "DELETE" mod_).
Proof.
  intros Hkeys Htpl. split_and!.
  - unfold decodeMod, MustBugf. rewrite Hkeys. simpl.
    rewrite String.eqb_refl, Htpl. simpl. intros ->. eauto.
  - unfold decodeMod, MustBugf. rewrite Hkeys. simpl.
    rewrite String.eqb_refl, Htpl. simpl. intros oldValues ->. simpl.
    by destruct (contextualizedCaveatFromValues oldValues).
  - intros mod' Hk Ho. unfold decodeMod. rewrite Hk, Ho. simpl.
    by rewrite String.eqb_refl.
Qed.

(** X14. The rebuilding of a caveat.  An empty caveat name means no
    caveat, and the context is then not even looked at.  With a name and a
    null context the caveat gets the struct of no map; with a name and a
    context string the string is decoded as JSON first, and an error of
    that decoding or of the making of the struct is returned as it is. *)
Theorem caveat_reconstruction (values : gmap string any) :
  (index values colCaveatName = AString "" →
     contextualizedCaveatFromValues values = Ok None) ∧
  (∀ name, name ≠ "" →
     index values colCaveatName = AString name →
     index values colCaveatContext = ANil →
     contextualizedCaveatFromValues values =
       match structpb_NewStruct None with
       | inl e => Err e
       | inr strct => Ok (Some {| CaveatName := name; Context := strct |})
       end) ∧
  (∀ name s, name ≠ "" →
     index values colCaveatName = AString name →
     index values colCaveatContext = AString s →
     contextualizedCaveatFromValues values =
       match json_Unmarshal s with
       | inl e => Err e
       | inr context =>
           match structpb_NewStruct context with
           | inl e => Err e
           | inr strct => Ok (Some {| CaveatName := name; Context := strct |})
           end
       end).
Proof.
  unfold contextualizedCaveatFromValues, ContextualizedCaveatFrom. split_and!.
  - by intros ->.
  - intros name Hne%nonEmpty_true -> ->. simpl. rewrite Hne. simpl. rewrite ?Hne.
    by destruct (structpb_NewStruct None).
  - intros name s Hne%nonEmpty_true -> ->. simpl. rewrite Hne. simpl.
    destruct (json_Unmarshal s) as [e|context]; simpl; [done|]. rewrite ?Hne.
    by destruct (structpb_NewStruct context).
Qed.

End DecoderExtras.

(** ** The decoder on the schema tables *)

Section SchemaTables.
Context `{WatchContent} `{Schema} `{Collaborators}.

(** X15. A DELETE on a schema table reads one key column and nothing
    else, and for both tables it is the column of the namespace name: with
    a string there it emits the deletion of the namespace, or of the
    caveat, of that name; with that column missing or not a string it
    returns an internal-invariant error, whatever the key holds under the
    column of the caveat name. *)
Theorem schema_delete_decoding (changeRevision : Z) (mod_ : Mod) (pk : gmap string any) :
  Value (Keys mod_) = AMap pk →
  tableNamespace ≠ tableRelationship →
  tableCaveat ≠ tableRelationship →
  tableCaveat ≠ tableNamespace →
  (∀ name, pk !! colNamespaceName = Some (AString name) →
     decodeMod changeRevision tableNamespace "DELETE" mod_ =
       Ok (Some (DeletedNamespace changeRevision name)) ∧
     decodeMod changeRevision tableCaveat "DELETE" mod_ =
       Ok (Some (DeletedCaveat changeRevision name))) ∧
  (asString (index pk colNamespaceName) = None →
     (∃ msg, decodeMod changeRevision tableNamespace "DELETE" mod_ = Err (ErrBug msg)) ∧
     (∃ msg, decodeMod changeRevision tableCaveat "DELETE" mod_ = Err (ErrBug msg))).
Proof.
  intros Hkeys HNR HCR HCN. unfold decodeMod, MustBugf. rewrite Hkeys. simpl.
  apply String.eqb_neq in HNR, HCR, HCN. rewrite HNR, HCR, HCN, !String.eqb_refl.
  split.
  - by intros name ->.
  - intros [->|(v & -> & ->)]%asString_None_index; eauto.
Qed.

(** X16. An INSERT or UPDATE on a schema table reads the serialized
    definition from the new values and neither the old values nor the
    content of the key.  With the column missing or not a string it
    returns an internal-invariant error; a payload that is not base64 or
    that does not unmarshal gives the "unable to read config" error; any
    other payload gives the changed definition that it holds. *)
Theorem schema_upsert_decoding (changeRevision : Z) (modType : string) (mod_ : Mod)
    (pk newValues : gmap string any) :
  Value (Keys mod_) = AMap pk →
  Value (NewValues mod_) = AMap newValues →
  modType = "INSERT" ∨ modType = "UPDATE" →
  tableNamespace ≠ tableRelationship →
  tableCaveat ≠ tableRelationship →
  tableCaveat ≠ tableNamespace →
  (asString (index newValues colNamespaceConfig) = None →
     ∃ msg, decodeMod changeRevision tableNamespace modType mod_ = Err (ErrBug msg)) ∧
  (∀ config, newValues !! colNamespaceConfig = Some (AString config) →
     decodeMod changeRevision tableNamespace modType mod_ =
       match base64_DecodeString config with
       | inl e => Err (ErrUnableToReadConfig e)
       | inr raw =>
           match NamespaceDefinition_UnmarshalVT raw with
           | inl e => Err (ErrUnableToReadConfig e)
           | inr ns => Ok (Some (ChangedDefinition changeRevision (OfNamespace ns)))
           end
       end) ∧
  (asString (index newValues colCaveatDefinition) = None →
     ∃ msg, decodeMod changeRevision tableCaveat modType mod_ = Err (ErrBug msg)) ∧
  (∀ config, newValues !! colCaveatDefinition = Some (AString config) →
     decodeMod changeRevision tableCaveat modType mod_ =
       match base64_DecodeString config with
       | inl e => Err (ErrUnableToReadConfig e)
       | inr raw =>
           match CaveatDefinition_UnmarshalVT raw with
           | inl e => Err (ErrUnableToReadConfig e)
           | inr c => Ok (Some (ChangedDefinition changeRevision (OfCaveat c)))
           end
       end).
Proof.
  intros Hkeys Hnew Hmod HNR HCR HCN.
  assert (Hupsert : String.eqb modType "DELETE" = false ∧
                    String.eqb modType "INSERT" || String.eqb modType "UPDATE" = true)
    by (by destruct Hmod as [->| ->]).
  destruct Hupsert as [HD HIU].
  unfold decodeMod, MustBugf, decodeDefinition. rewrite Hkeys, Hnew. simpl.
  apply String.eqb_neq in HNR, HCR, HCN.
  rewrite HD, HIU, HNR, HCR, HCN, !String.eqb_refl.
  split_and!.
  - intros [->|(v & -> & ->)]%asString_None_index; eauto.
  - intros config ->. simpl.
    destruct (base64_DecodeString config) as [e|raw]; [done|].
    by destruct (NamespaceDefinition_UnmarshalVT raw).
  - intros [->|(v & -> & ->)]%asString_None_index; eauto.
  - intros config ->. simpl.
    destruct (base64_DecodeString config) as [e|raw]; [done|].
    by destruct (CaveatDefinition_UnmarshalVT raw).
Qed.

End SchemaTables.

(** ** The further properties at concrete inputs *)

Section ConcreteExtras.
#[local] Existing Instances watchContent spannerSchema strictCollaborators.

Lemma parseDatabaseName_exact_witness :
  "p" ≠ "" ∧ noSlash "p" = true ∧
  parseDatabaseName "projects/p/instances/i/databases/d" = inr ("p", "i", "d").
Proof.
  split; [done|]. split; [reflexivity|].
  apply (proj1 (parseDatabaseName_exact "projects/p/instances/i/databases/d" "p" "i" "d")).
  by split_and!.
Defined.

Lemma stream_opened_once_witness :
  parseDatabaseName (database badDatastore) = inl (ErrParseDatabaseName "spicedb") ∧
  opensOf (watch (worldOf (inr silentReader) None) badDatastore (Decimal 0)
             checkpointsOnly).2 = [].
Proof.
  split; [reflexivity|].
  apply (proj1 (proj2 (stream_opened_once (worldOf (inr silentReader) None) badDatastore
                         (Decimal 0) checkpointsOnly)) (ErrParseDatabaseName "spicedb")).
  reflexivity.
Defined.

Lemma reader_released_witness :
  parseDatabaseName (database goodDatastore) = inr ("p", "i", "d") ∧
  ∃ body, (watch (worldOf (inr silentReader) None) goodDatastore (Decimal 0)
             checkpointsOnly).2 = body ++ [ReaderClosed; ErrsClosed; UpdatesClosed] ∧
          count isReaderClosed body = 0%nat.
Proof.
  split; [reflexivity|].
  apply (proj1 (reader_released (worldOf (inr silentReader) None) goodDatastore
                  (Decimal 0) checkpointsOnly) "p" "i" "d" 0 silentReader);
    reflexivity.
Defined.

Lemma errors_unchanged_without_cancellation_witness :
  ctxErr (lateWorld (inr failingReader)) ≠ Some Canceled ∧
  errorsOf (watch (lateWorld (inr failingReader)) goodDatastore (Decimal 0)
              checkpointsOnly).2 = [ErrExternal "rpc error: code = Canceled"].
Proof.
  assert (Hctx : ctxErr (lateWorld (inr failingReader)) ≠ Some Canceled) by done.
  split; [exact Hctx|].
  exact (proj2 (proj2 (errors_unchanged_without_cancellation
                         (lateWorld (inr failingReader)) goodDatastore (Decimal 0)
                         checkpointsOnly Hctx))
           "p" "i" "d" 0 eq_refl eq_refl).
Defined.

Lemma panic_delivers_no_error_witness :
  (watch (worldOf (inr silentReader) None) goodDatastore
         (ForeignRevision "postgres.pgRevision") checkpointsOnly).1
    = Panicked (PanicInterfaceConversion "postgres.pgRevision" "revision.Decimal") ∧
  errorsOf (watch (worldOf (inr silentReader) None) goodDatastore
              (ForeignRevision "postgres.pgRevision") checkpointsOnly).2 = [].
Proof.
  split; [reflexivity|].
  apply (panic_delivers_no_error (worldOf (inr silentReader) None) goodDatastore
           (ForeignRevision "postgres.pgRevision") checkpointsOnly
           (PanicInterfaceConversion "postgres.pgRevision" "revision.Decimal")).
  reflexivity.
Defined.

Lemma error_is_last_witness :
  let t := (watch (worldOf (inr failingReader) None) goodDatastore (Decimal 0)
              checkpointsOnly).2 in
  t = take 1 t ++ Error (ErrExternal "rpc error: code = Canceled") :: drop 2 t ∧
  errorsOf (take 1 t) = [] ∧
  (drop 2 t = [ErrsClosed; UpdatesClosed] ∨
   drop 2 t = [ReaderClosed; ErrsClosed; UpdatesClosed]).
Proof.
  intros t.
  assert (Hsplit : t = take 1 t ++ Error (ErrExternal "rpc error: code = Canceled")
                     :: drop 2 t) by reflexivity.
  split; [exact Hsplit|].
  exact (error_is_last _ _ _ _ _ _ _ Hsplit).
Defined.

Lemma delivery_follows_plan_witness :
  parseDatabaseName (database goodDatastore) = inr ("p", "i", "d") ∧
  let plan := planRecords schemaAndCheckpoints
                (recordsOf (readBatches (readerOf deletionAndHeartbeat))) in
  let t := (watch (worldOf (inr (readerOf deletionAndHeartbeat)) None) goodDatastore
              (Decimal 0) schemaAndCheckpoints).2 in
  (updatesOf t = plan.1 ∧ Forall (λ e, isRefused e = false) t ∧
   errorsOf t = match plan.2 with
                | Ok _ => match readReturn (readerOf deletionAndHeartbeat) with
                          | Some e => [reported (worldOf (inr (readerOf deletionAndHeartbeat))
                                                   None) e]
                          | None => []
                          end
                | Err e => [reported (worldOf (inr (readerOf deletionAndHeartbeat)) None) e]
                | Panic _ => []
                end) ∨
  (∃ sent change rest,
     plan.1 = sent ++ change :: rest ∧ updatesOf t = sent ∧
     Refused change ∈ t ∧
     errorsOf t = [reported (worldOf (inr (readerOf deletionAndHeartbeat)) None)
                     ErrWatchDisconnected]).
Proof.
  split; [reflexivity|].
  exact (delivery_follows_plan (worldOf (inr (readerOf deletionAndHeartbeat)) None)
           goodDatastore schemaAndCheckpoints "p" "i" "d" 0
           (readerOf deletionAndHeartbeat) eq_refl eq_refl).
Defined.

Lemma refused_only_after_ten_witness :
  let t := (watch (worldOf (inr elevenHeartbeats) None) goodDatastore (Decimal 0)
              checkpointsOnly).2 in
  t = take 11 t ++ Refused (checkpoint {| Timestamp := 11 |}) :: drop 12 t ∧
  (10 ≤ length (updatesOf (take 11 t)))%nat.
Proof.
  intros t.
  assert (Hsplit : t = take 11 t ++ Refused (checkpoint {| Timestamp := 11 |})
                     :: drop 12 t) by (vm_compute; reflexivity).
  split; [exact Hsplit|].
  exact (refused_only_after_ten _ _ _ _ _ _ _ Hsplit).
Defined.

Lemma small_sessions_delivered_in_full_witness :
  (length (planRecords schemaAndCheckpoints deletionAndHeartbeat).1 ≤ 10)%nat ∧
  updatesOf (watch (worldOf (inr (readerOf deletionAndHeartbeat)) None) goodDatastore
               (Decimal 0) schemaAndCheckpoints).2
    = (planRecords schemaAndCheckpoints deletionAndHeartbeat).1.
Proof.
  assert (Hsmall : (length (planRecords schemaAndCheckpoints
                              (recordsOf (readBatches (readerOf deletionAndHeartbeat)))).1
                    ≤ 10)%nat) by (vm_compute; lia).
  split; [exact Hsmall|].
  apply (small_sessions_delivered_in_full
           (worldOf (inr (readerOf deletionAndHeartbeat)) None)
           goodDatastore schemaAndCheckpoints "p" "i" "d" 0
           (readerOf deletionAndHeartbeat) eq_refl eq_refl Hsmall).
Defined.

Lemma relationTupleFromKeys_exact_witness :
  index documentViewerKeys colNamespace = AString "document" ∧
  relationTupleFromKeys documentViewerKeys = Ok documentViewer.
Proof.
  split; [reflexivity|].
  apply (proj1 (relationTupleFromKeys_exact documentViewerKeys documentViewer)).
  split_and!; reflexivity.
Defined.

Lemma decodeMod_event_shape_witness :
  decodeMod 5 tableRelationship "INSERT" plainRow =
    Ok (Some (RelationshipChange 5 documentViewer RelationTupleUpdate_TOUCH)) ∧
  revisionOf (RelationshipChange 5 documentViewer RelationTupleUpdate_TOUCH) = 5.
Proof.
  assert (Hev : decodeMod 5 tableRelationship "INSERT" plainRow =
                  Ok (Some (RelationshipChange 5 documentViewer RelationTupleUpdate_TOUCH)))
    by reflexivity.
  split; [exact Hev|].
  exact (proj1 (decodeMod_event_shape 5 tableRelationship "INSERT" plainRow _ Hev)).
Defined.

Lemma unknown_modifications_are_fatal_witness :
  Value (Keys plainRow) = AMap documentViewerKeys ∧
  ∃ msg, decodeMod 5 "changelog" "DELETE" plainRow = Err (ErrBug msg).
Proof.
  split; [reflexivity|].
  apply (proj2 (proj2 (unknown_modifications_are_fatal 5 "changelog" "DELETE" plainRow))
           documentViewerKeys); try done. by left.
Defined.

Lemma relationship_delete_decoding_witness :
  relationTupleFromKeys documentViewerKeys = Ok documentViewer ∧
  decodeMod 5 tableRelationship "DELETE" deletedPlainRow =
    Ok (Some (RelationshipChange 5 (withCaveat documentViewer None)
                RelationTupleUpdate_DELETE)).
Proof.
  split; [reflexivity|].
  exact (proj1 (proj2 (relationship_delete_decoding 5 deletedPlainRow documentViewerKeys
                         documentViewer eq_refl eq_refl))
           (caveatColumns (AString "") ANil) eq_refl).
Defined.

Lemma caveat_reconstruction_witness :
  index (caveatColumns (AString "") (AString "[]")) colCaveatName = AString "" ∧
  contextualizedCaveatFromValues (caveatColumns (AString "") (AString "[]")) = Ok None.
Proof.
  split; [reflexivity|].
  apply (proj1 (caveat_reconstruction (caveatColumns (AString "") (AString "[]")))).
  reflexivity.
Defined.

Lemma schema_delete_decoding_witness :
  tableCaveat ≠ tableNamespace ∧
  decodeMod 5 tableNamespace "DELETE" (namespaceKey "document") =
    Ok (Some (DeletedNamespace 5 "document")) ∧
  decodeMod 5 tableCaveat "DELETE" (namespaceKey "document") =
    Ok (Some (DeletedCaveat 5 "document")).
Proof.
  assert (HNR : tableNamespace ≠ tableRelationship) by done.
  assert (HCR : tableCaveat ≠ tableRelationship) by done.
  assert (HCN : tableCaveat ≠ tableNamespace) by done.
  split; [exact HCN|].
  apply (proj1 (schema_delete_decoding 5 (namespaceKey "document")
                  (list_to_map [("namespace", AString "document")])
                  eq_refl HNR HCR HCN)).
  reflexivity.
Defined.

Lemma schema_upsert_decoding_witness :
  asString (index (∅ : gmap string any) colNamespaceConfig) = None ∧
  ∃ msg, decodeMod 5 tableNamespace "INSERT" (namespaceKey "document") = Err (ErrBug msg).
Proof.
  assert (HNR : tableNamespace ≠ tableRelationship) by done.
  assert (HCR : tableCaveat ≠ tableRelationship) by done.
  assert (HCN : tableCaveat ≠ tableNamespace) by done.
  split; [reflexivity|].
  apply (proj1 (schema_upsert_decoding 5 "INSERT" (namespaceKey "document")
                  (list_to_map [("namespace", AString "document")]) ∅
                  eq_refl eq_refl (or_introl eq_refl) HNR HCR HCN)).
  reflexivity.
Defined.

End ConcreteExtras.
